(** * ACC-A quiz trainer (src/src/App.jsx): session controller, scorer,
      bank import and results export, and the properties they satisfy.

    The React component [App] keeps its state in [useState] cells and changes
    it from event handlers.  Here one render of the component is a record of
    the values of those cells, a handler is a function from the render whose
    closure it reads and the live state to the new live state together with
    the dialogs it opened, and the timer interval is the closure of the render
    in which the timer effect last ran.

    Conventions.  JS numbers that hold counts, indices and millisecond clocks
    are [Z] or [nat]; the one computation whose result depends on IEEE double
    rounding (the percentage of the score) is carried out on the kernel's
    binary64 floats.  Objects used as maps from strings ([answers], [byChap])
    are [gmap string _]; keys that collide with members of [Object.prototype]
    are outside this model.  [Math.random] and [Date.now] are inputs. *)

From Stdlib Require Import ZArith Lia.
From Corelib Require Import Floats.PrimFloat Floats.SpecFloat Floats.FloatOps.
From Corelib Require Import Numbers.Cyclic.Int63.Uint63Axioms.
From stdpp Require Import gmap strings list.

Set Warnings "-register-all".

(** ** Types *)

(** [McqQuestion], as the typedef of the source declares it.  The optional
    fields [explanation] and [sources] are [None] when the property is
    absent. *)
Record McqQuestion := {
  id : string;
  type : string;
  chapitre : string;
  niveau : string;
  question : string;
  choices : list string;
  answerIndex : Z;
  explanation : option string;
  sources : option (list string)
}.

(** [DEFAULT_BANK] of the source. *)
Definition DEFAULT_BANK : list McqQuestion := [
  {| id := "q_renf_1"; type := "mcq"; chapitre := "Renforcement"; niveau := "débutant";
     question := "Lequel illustre un renforcement positif ?";
     choices := [ "Retirer une corvée après un bon comportement";
                  "Donner une friandise après une réponse correcte";
                  "Ignorer un comportement pour qu'il diminue";
                  "Ajouter une punition après un comportement" ];
     answerIndex := 1;
     explanation := Some "Renforcement positif = ajout d'un stimulus agréable contingent au comportement.";
     sources := Some [ "Miltenberger — Renforcement (principes)" ] |};
  {| id := "q_ext_1"; type := "mcq"; chapitre := "Extinction"; niveau := "intermédiaire";
     question := "Quel phénomène est typique au début d'une procédure d'extinction ?";
     choices := [ "Diminution immédiate stable"; "Extinction burst";
                  "Généralisation immédiate"; "Disparition définitive" ];
     answerIndex := 1;
     explanation := Some "Augmentation transitoire de la fréquence ou intensité au début de l'extinction.";
     sources := Some [ "Miltenberger — Extinction (phénomènes associés)" ] |};
  {| id := "q_prog_1"; type := "mcq"; chapitre := "Programmes de renforcement"; niveau := "avancé";
     question := "Quel programme est le plus résistant à l'extinction ?";
     choices := [ "CRF"; "FR"; "VR"; "FI" ];
     answerIndex := 2;
     explanation := Some "Les programmes VR sont les plus résistants à l'extinction.";
     sources := Some [ "Miltenberger — Programmes de renforcement" ] |};
  {| id := "q_mes_1"; type := "mcq"; chapitre := "Mesure"; niveau := "débutant";
     question := "Laquelle est une dimension temporelle du comportement ?";
     choices := [ "Fréquence"; "Durée"; "Topographie"; "Intensité" ];
     answerIndex := 1;
     explanation := Some "La durée mesure le temps pendant lequel le comportement se produit.";
     sources := Some [ "Miltenberger — Mesure et enregistrement" ] |}
].

(** ** Utils *)

(** One result of [Math.random()]: the number [s_num / (s_num + s_gap + 1)],
    which ranges over the rationals of [0, 1) and so over every double the
    generator can return. *)
Record Sample := { s_num : nat; s_gap : nat }.

(** [Math.floor(Math.random() * n)] for the sample [r]. *)
Definition floor_scale (r : Sample) (n : nat) : nat :=
  Nat.div (s_num r * n) (s_num r + s_gap r + 1).

(** [[arr[i], arr[j]] = [arr[j], arr[i]]].  Both cells are read, then [arr[i]]
    and [arr[j]] are written.  [shuffle] only calls it with [j <= i < length]
    ([floor_scale_le]); outside that range the model leaves the array as it
    is. *)
Definition swap {A} (arr : list A) (i j : nat) : list A :=
  match arr !! i, arr !! j with
  | Some x, Some y => <[j := x]> (<[i := y]> arr)
  | _, _ => arr
  end.

(** The loop of [shuffle]: [i] runs from [length - 1] down to [1]; [k] counts
    the calls to [Math.random], whose [k]-th result is [rnd k]. *)
Fixpoint shuffle_loop {A} (rnd : nat → Sample) (k i : nat) (arr : list A) : list A :=
  match i with
  | 0 => arr
  | S i' =>
      let j := floor_scale (rnd k) (i + 1) in
      shuffle_loop rnd (S k) i' (swap arr i j)
  end.

Definition shuffle {A} (rnd : nat → Sample) (a : list A) : list A :=
  shuffle_loop rnd 0 (length a - 1) a.

(** [list.slice(0, e)]: a negative end counts from the end of the array. *)
Definition slice0 {A} (l : list A) (e : Z) : list A :=
  let len := Z.of_nat (length l) in
  let final := if (e <? 0)%Z then Z.max (len + e) 0 else Z.min e len in
  take (Z.to_nat final) l.

(** ** State of the component *)

Inductive View := Home | Quiz | Results.

#[global] Instance View_eq_dec : EqDecision View.
Proof. solve_decision. Defined.

(** "Données" and "Préférences": the bank and the settings of the filter bar.
    [chapitre_sel] and [niveau_sel] are the state cells [chapitre] and
    [niveau] (the empty string selects all). *)
Record Config := {
  bank : list McqQuestion;
  mode : string;
  randomize : bool;
  timerOn : bool;
  timerMin : Z;
  chapitre_sel : string;
  niveau_sel : string;
  count : Z
}.

(** "Vues" and "Session". *)
Record Session := {
  view : View;
  quiz : list McqQuestion;
  order : list nat;
  idx : nat;
  answers : gmap string nat;
  startedAt : Z;
  timeLeft : Z
}.

(** The values of all state cells in one render. *)
Record Render := { cfg : Config; ses : Session }.

(** Dialogs a handler opens: [confirm] with the number of unanswered
    questions its message shows, and [alert] with its text. *)
Inductive Dialog :=
  | Confirm (unanswered : nat)
  | Alert (text : string).

Definition set_view (v : View) (s : Session) : Session :=
  {| view := v; quiz := quiz s; order := order s; idx := idx s;
     answers := answers s; startedAt := startedAt s; timeLeft := timeLeft s |}.

Definition set_idx (i : nat) (s : Session) : Session :=
  {| view := view s; quiz := quiz s; order := order s; idx := i;
     answers := answers s; startedAt := startedAt s; timeLeft := timeLeft s |}.

Definition set_answers (a : gmap string nat) (s : Session) : Session :=
  {| view := view s; quiz := quiz s; order := order s; idx := idx s;
     answers := a; startedAt := startedAt s; timeLeft := timeLeft s |}.

Definition set_startedAt (t : Z) (s : Session) : Session :=
  {| view := view s; quiz := quiz s; order := order s; idx := idx s;
     answers := answers s; startedAt := t; timeLeft := timeLeft s |}.

Definition set_timeLeft (t : Z) (s : Session) : Session :=
  {| view := view s; quiz := quiz s; order := order s; idx := idx s;
     answers := answers s; startedAt := startedAt s; timeLeft := t |}.

(** [filtered]: the questions of the bank that match the selected chapter and
    level. *)
Definition matches (c : Config) (q : McqQuestion) : Prop :=
  (chapitre_sel c = "" ∨ chapitre q = chapitre_sel c) ∧
  (niveau_sel c = "" ∨ niveau q = niveau_sel c).

#[global] Instance matches_dec c q : Decision (matches c q).
Proof. unfold matches. apply _. Defined.

Definition filtered (c : Config) : list McqQuestion :=
  filter (matches c) (bank c).

(** The [onChange] of the "Questions" input:
    [setCount(Math.max(1, Math.min(bank.length, Number(v) || 1)))]. *)
Definition clampCount (bankLength : nat) (v : Z) : Z :=
  Z.max 1 (Z.min (Z.of_nat bankLength) (if (v =? 0)%Z then 1 else v)).

(** The values the cell [count] takes: its default, or what [setCount]
    stored. *)
Inductive configured_count : Z → Prop :=
  | count_default : configured_count 10
  | count_set bankLength v : configured_count (clampCount bankLength v).

(** ** Actions *)

(** [start()], called at time [now] with the random numbers [rnd]. *)
Definition start (rnd : nat → Sample) (now : Z) (r : Render) : Session * list Dialog :=
  let c := cfg r in
  if decide (length (filtered c) = 0) then
    (ses r, [Alert "Aucune question ne correspond aux filtres."])
  else
    let list := if randomize c then shuffle rnd (filtered c) else filtered c in
    let slice := slice0 list (Z.min (count c) (Z.of_nat (length list))) in
    ({| view := Quiz;
        quiz := slice;
        order := seq 0 (length slice);
        idx := 0;
        answers := ∅;
        startedAt := now;
        timeLeft := if timerOn c then (timerMin c * 60)%Z else 0%Z |}, []).

(** [finish()].  [cl] is the render whose closure the call reads ([quiz],
    [answers], [view]); [ok] is the user's reply to [confirm] should it open;
    [s] is the live session that [setView] updates. *)
Definition unanswered (s : Session) : nat :=
  length (filter (λ q, answers s !! id q = None) (quiz s)).

Definition finish (cl : Session) (ok : bool) (s : Session) : Session * list Dialog :=
  let n := unanswered cl in
  if decide (0 < n ∧ view cl = Quiz) then
    if ok then (set_view Results s, [Confirm n]) else (s, [Confirm n])
  else (set_view Results s, []).

(** [record(q, choiceIdx)]: a functional update of the cell [answers]. *)
Definition record (q : McqQuestion) (choiceIdx : nat) (s : Session) : Session :=
  set_answers (<[id q := choiceIdx]> (answers s)) s.

Definition next (cl : Session) (ok : bool) (s : Session) : Session * list Dialog :=
  if decide (idx cl + 1 < length (order cl)) then (set_idx (idx cl + 1) s, [])
  else finish cl ok s.

Definition prev (cl : Session) (s : Session) : Session :=
  if decide (0 < idx cl) then set_idx (idx cl - 1) s else s.

Definition goto (i : nat) (s : Session) : Session := set_idx i s.

Definition restartToHome (s : Session) : Session :=
  {| view := Home; quiz := []; order := []; idx := 0; answers := ∅;
     startedAt := 0; timeLeft := 0 |}.

(** The [onClick] of the "Nouvelle session" button of the results view:
    [() => setView("home")]. *)
Definition nouvelleSession (s : Session) : Session := set_view Home s.

(** ** The timer effect and its interval *)

(** The component between two events: the live state, the closure of the
    running interval (the render in which the timer effect created it), and
    the dependency values [view, timerOn, timerMin, startedAt] the effect saw
    when it last ran. *)
Record App := {
  live : Render;
  interval : option Render;
  timer_deps : View * bool * Z * Z
}.

Definition deps_of (r : Render) : View * bool * Z * Z :=
  (view (ses r), timerOn (cfg r), timerMin (cfg r), startedAt (ses r)).

Definition with_ses (s : Session) (a : App) : App :=
  {| live := {| cfg := cfg (live a); ses := s |};
     interval := interval a; timer_deps := timer_deps a |}.

(** One run of the timer effect after a render at time [now].  When a
    dependency changed, the cleanup clears the old interval; the body returns
    at once outside a timed quiz, else sets [startedAt] if it is still [0] and
    creates an interval that closes over this render. *)
Definition timer_effect (now : Z) (a : App) : App :=
  let r := live a in
  if decide (deps_of r = timer_deps a) then a
  else if decide (view (ses r) ≠ Quiz ∨ timerOn (cfg r) = false) then
    {| live := r; interval := None; timer_deps := deps_of r |}
  else
    {| live := if decide (startedAt (ses r) = 0%Z)
               then {| cfg := cfg r; ses := set_startedAt now (ses r) |} else r;
       interval := Some r;
       timer_deps := deps_of r |}.

(** A state update made by the effect renders again, so the effect runs until
    its dependencies are stable: twice at most. *)
Definition settle (now : Z) (a : App) : App := timer_effect now (timer_effect now a).

(** The interval callback, fired at time [now]. *)
Definition time_left (cl : Render) (now : Z) : Z :=
  let total := (timerMin (cfg cl) * 60)%Z in
  let started := if decide (startedAt (ses cl) = 0%Z) then now else startedAt (ses cl) in
  let elapsed := ((now - started) `div` 1000)%Z in
  Z.max 0 (total - elapsed).

Definition tick (now : Z) (ok : bool) (a : App) : App * list Dialog :=
  match interval a with
  | None => (a, [])
  | Some cl =>
      let left := time_left cl now in
      let s1 := set_timeLeft left (ses (live a)) in
      if decide (left ≤ 0)%Z then
        let '(s2, ds) := finish (ses cl) ok s1 in
        ({| live := {| cfg := cfg (live a); ses := s2 |};
            interval := None; timer_deps := timer_deps a |}, ds)
      else (with_ses s1 a, [])
  end.

(** ** Events *)

(** What the user and the clock do: the "Démarrer" button, the radio button of
    choice [i] of the current question, "Suivant"/"Terminer" (with the reply
    to a possible [confirm]), "Précédent", the navigator button [n],
    "Quitter", "Nouvelle session", and one firing of the interval. *)
Inductive Event :=
  | EStart (rnd : nat → Sample)
  | ESelect (i : nat)
  | ENext (ok : bool)
  | EPrev
  | EGoto (n : nat)
  | EQuit
  | ENouvelleSession
  | ETick (ok : bool).

(** [quiz[order[idx]]]. *)
Definition current (s : Session) : option McqQuestion :=
  match order s !! idx s with
  | Some i => quiz s !! i
  | None => None
  end.

(** A control acts only in the views that render it. *)
Definition handle (now : Z) (e : Event) (a : App) : App * list Dialog :=
  let s := ses (live a) in
  match e, view s with
  | EStart rnd, (Home | Results) =>
      let '(s', ds) := start rnd now (live a) in (with_ses s' a, ds)
  | ESelect i, Quiz =>
      match current s with
      | Some q => if decide (i < length (choices q))
                  then (with_ses (record q i s) a, []) else (a, [])
      | None => (a, [])
      end
  | ENext ok, Quiz => let '(s', ds) := next s ok s in (with_ses s' a, ds)
  | EPrev, Quiz => (with_ses (prev s s) a, [])
  | EGoto n, Quiz =>
      if decide (n < length (order s)) then (with_ses (goto n s) a, []) else (a, [])
  | EQuit, Quiz => (with_ses (restartToHome s) a, [])
  | ENouvelleSession, Results => (with_ses (nouvelleSession s) a, [])
  | ETick ok, _ => tick now ok a
  | _, _ => (a, [])
  end.

(** One event at time [now]: the handler, then the effects of the render it
    caused. *)
Definition step (now : Z) (e : Event) (a : App) : App * list Dialog :=
  let '(a', ds) := handle now e a in (settle now a', ds).

(** A sequence of timed events; the dialogs opened, oldest first. *)
Fixpoint run (evs : list (Z * Event)) (a : App) : App * list Dialog :=
  match evs with
  | [] => (a, [])
  | (now, e) :: evs' =>
      let '(a1, d1) := step now e a in
      let '(a2, d2) := run evs' a1 in (a2, (d1 ++ d2)%list)
  end.

(** The component after mounting with configuration [c]: the home view, an
    empty session, and the timer effect run once (it returned at once). *)
Definition mount (c : Config) : App :=
  let r := {| cfg := c;
              ses := {| view := Home; quiz := []; order := []; idx := 0;
                        answers := ∅; startedAt := 0; timeLeft := 0 |} |} in
  {| live := r; interval := None; timer_deps := deps_of r |}.

(** ** Import of a bank *)

(** A value returned by [JSON.parse].  The validation never looks at the
    value of a number, only at its type; numbers are integers here. *)
Inductive json :=
  | JNull
  | JBool (b : bool)
  | JNum (z : Z)
  | JStr (s : string)
  | JArr (items : list json)
  | JObj (fields : list (string * json)).

(** What a [try] block can catch: an [Error] thrown by the code with its
    message, or the engine's [TypeError] and [SyntaxError]. *)
Inductive Thrown :=
  | Error (message : string)
  | TypeError
  | SyntaxError.

(** The property [k] of a parsed object; a key that occurs twice keeps its
    last value. *)
Fixpoint prop_of (fields : list (string * json)) (k : string) : option json :=
  match fields with
  | [] => None
  | (k', v) :: rest =>
      match prop_of rest k with
      | Some w => Some w
      | None => if decide (k' = k) then Some v else None
      end
  end.

(** [q.k] for one of the keys the import reads ([type], [choices],
    [answerIndex], [sources]): [None] is [undefined]; reading a property of
    [null] throws; arrays, strings, numbers and booleans have none of these
    properties. *)
Definition get (q : json) (k : string) : Thrown + option json :=
  match q with
  | JNull => inl TypeError
  | JObj fields => inr (prop_of fields k)
  | _ => inr None
  end.

Definition isArray (v : option json) : bool :=
  match v with Some (JArr _) => true | _ => false end.

(** [typeof v === "number"]. *)
Definition isNumber (v : option json) : bool :=
  match v with Some (JNum _) => true | _ => false end.

(** [v === "mcq"]. *)
Definition is_mcq (v : option json) : bool :=
  match v with Some (JStr s) => bool_decide (s = "mcq") | _ => false end.

(** Truthiness of a value, as [&&] and [!] use it. *)
Definition truthy (v : option json) : bool :=
  match v with
  | None | Some JNull => false
  | Some (JBool b) => b
  | Some (JNum z) => negb (z =? 0)%Z
  | Some (JStr s) => negb (bool_decide (s = ""))
  | Some (JArr _) | Some (JObj _) => true
  end.

(** The body of the validation loop for one element [q]. *)
Definition check_question (q : json) : Thrown + unit :=
  match get q "type" with
  | inl e => inl e
  | inr t =>
      if negb (is_mcq t)
      then inl (Error "Toutes les questions doivent être de type 'mcq'")
      else
        match get q "choices", get q "answerIndex", get q "sources" with
        | inr c, inr ai, inr s =>
            if negb (isArray c) || negb (isNumber ai)
            then inl (Error "Chaque question doit avoir 'choices' et 'answerIndex'")
            else if truthy s && negb (isArray s)
            then inl (Error "'sources' doit être un tableau de chaînes")
            else inr ()
        | inl e, _, _ | _, inl e, _ | _, _, inl e => inl e
        end
  end.

(** [for (const q of data) { ... }]: stops at the first throw. *)
Fixpoint check_all (data : list json) : Thrown + unit :=
  match data with
  | [] => inr ()
  | q :: rest =>
      match check_question q with
      | inl e => inl e
      | inr _ => check_all rest
      end
  end.

(** How [reader.onload] ends: with the alert "Banque importée avec succès", or
    with the alert "Erreur d'import: " followed by the message of [e]. *)
Inductive ImportOutcome :=
  | Imported
  | Rejected (e : Thrown).

(** [reader.onload] of [importBankFromFile], on the current bank and the
    result of [JSON.parse(reader.result)].  The cell [bank] receives the
    parsed array as it is. *)
Definition importBank (bank : list json) (parsed : Thrown + json)
  : list json * ImportOutcome :=
  match parsed with
  | inl e => (bank, Rejected e)
  | inr (JArr data) =>
      match check_all data with
      | inl e => (bank, Rejected e)
      | inr _ => (data, Imported)
      end
  | inr _ => (bank, Rejected (Error "Le JSON doit être un tableau"))
  end.

(** ** Export of the results *)

Definition quote_char : Ascii.ascii := Ascii.ascii_of_nat 34.
Definition quote_mark : string := String quote_char EmptyString.
Definition newline : string := String (Ascii.ascii_of_nat 10) EmptyString.

(** [s.replaceAll(quote, quote + quote)]. *)
Fixpoint replaceAll_quote (s : string) : string :=
  match s with
  | EmptyString => EmptyString
  | String c r =>
      if decide (c = quote_char)
      then String quote_char (String quote_char (replaceAll_quote r))
      else String c (replaceAll_quote r)
  end.

(** [a.join(sep)]. *)
Definition join (sep : string) (a : list string) : string := String.concat sep a.

(** The array built for the question [q] before [.join(";")].  [None] when
    [q.choices[ans]] is [undefined], where [replaceAll] throws. *)
Definition csv_fields (answers : gmap string nat) (q : McqQuestion) : option (list string) :=
  let ans := answers !! id q in
  let correct := if bool_decide (Z.of_nat <$> ans = Some (answerIndex q)) then "1" else "0" in
  let srcs := match sources q with Some l => join " || " l | None => "" end in
  let chosen :=
    match ans with
    | Some i => replaceAll_quote <$> choices q !! i
    | None => Some ""
    end in
  match chosen with
  | None => None
  | Some ch =>
      Some [ id q;
             quote_mark +:+ chapitre q +:+ quote_mark;
             niveau q;
             quote_mark +:+ replaceAll_quote (question q) +:+ quote_mark;
             quote_mark +:+ join " | " (replaceAll_quote <$> choices q) +:+ quote_mark;
             quote_mark +:+ ch +:+ quote_mark;
             correct;
             quote_mark +:+ match explanation q with
                            | Some e => replaceAll_quote e
                            | None => ""
                            end +:+ quote_mark;
             quote_mark +:+ replaceAll_quote srcs +:+ quote_mark ]
  end.

Definition csv_header : string :=
  "id;chapitre;niveau;question;choix;reponse;correct;explication;sources".

(** The lines pushed by the loop; [None] when a row throws. *)
Fixpoint csv_rows (answers : gmap string nat) (qs : list McqQuestion) : option (list string) :=
  match qs with
  | [] => Some []
  | q :: rest =>
      match csv_fields answers q with
      | None => None
      | Some fs =>
          match csv_rows answers rest with
          | None => None
          | Some ls => Some (join ";" fs :: ls)
          end
      end
  end.

Inductive ExportOutcome :=
  | NoExport
  | ExportThrows
  | Download (filename text : string).

Definition exportResultsCSV (s : Session) : ExportOutcome :=
  match quiz s with
  | [] => NoExport
  | _ =>
      match csv_rows (answers s) (quiz s) with
      | None => ExportThrows
      | Some ls => Download "resultats_qcm_acca.csv" (join newline (csv_header :: ls))
      end
  end.

(** ** Scoring *)

(** The number [n] as a double (exact below [2^53]). *)
Definition to_float (n : nat) : float := of_uint63 (of_Z (Z.of_nat n)).

(** [Math.round(x)] for a finite [x = ± m * 2^e]: the floor of [x + 1/2],
    computed exactly.  The score only rounds finite values (for NaN and the
    infinities, which [Math.round] returns unchanged, the model gives [0]). *)
Definition Math_round (x : float) : Z :=
  match Prim2SF x with
  | S754_finite s m e =>
      let v := if s then Zneg m else Zpos m in
      if (0 <=? e)%Z then Z.shiftl v e
      else Z.shiftr (2 * v + Z.shiftl 1 (- e)) (1 - e)
  | _ => 0%Z
  end.

(** [total ? Math.round((ok / total) * 100) : 0]. *)
Definition pct_of (ok total : nat) : Z :=
  if decide (total = 0) then 0%Z
  else Math_round (PrimFloat.mul (PrimFloat.div (to_float ok) (to_float total)) (to_float 100)).

Record ChapScore := { chap_ok : nat; chap_total : nat }.

Record Score := {
  ok : nat;
  total : nat;
  pct : Z;
  byChap : gmap string ChapScore
}.

(** [answers[q.id] === q.answerIndex]. *)
Definition good (answers : gmap string nat) (q : McqQuestion) : bool :=
  bool_decide (Z.of_nat <$> answers !! id q = Some (answerIndex q)).

(** One turn of the loop of [score] on the pair [(ok, byChap)]. *)
Definition score_step (answers : gmap string nat)
    (acc : nat * gmap string ChapScore) (q : McqQuestion) : nat * gmap string ChapScore :=
  let g := good answers q in
  let ok1 := if g then fst acc + 1 else fst acc in
  let b1 := match snd acc !! chapitre q with
            | Some _ => snd acc
            | None => <[chapitre q := {| chap_ok := 0; chap_total := 0 |}]> (snd acc)
            end in
  let b2 := alter (λ v, {| chap_ok := chap_ok v; chap_total := chap_total v + 1 |})
                  (chapitre q) b1 in
  let b3 := if g
            then alter (λ v, {| chap_ok := chap_ok v + 1; chap_total := chap_total v |})
                       (chapitre q) b2
            else b2 in
  (ok1, b3).

(** The memoised [score]: [None] is [null]. *)
Definition score (s : Session) : option Score :=
  if decide (view s ≠ Results) then None
  else
    let acc := foldl (score_step (answers s)) (0, ∅) (quiz s) in
    let total := length (quiz s) in
    Some {| ok := fst acc; total := total; pct := pct_of (fst acc) total; byChap := snd acc |}.

(** ** Keyboard shortcuts and the inputs of the filter bar *)



(** * Vocabulary of the properties and sample data *)

(** ** Sample session *)

(** A configuration over the default bank: shuffled draws of two questions,
    timer of one minute. *)
Definition sample_cfg : Config :=
  {| bank := DEFAULT_BANK; mode := "entrainement"; randomize := true;
     timerOn := true; timerMin := 1; chapitre_sel := ""; niveau_sel := "";
     count := clampCount 4 2 |}.

Definition sample_rnd (k : nat) : Sample := {| s_num := k + 1; s_gap := 1 |}.

(** A session over the default bank: two questions drawn, the first one
    answered, then "Suivant" and "Terminer" (confirmed). *)
Definition sample_session : list (Z * Event) :=
  [ (1000, EStart sample_rnd); (2000, ESelect 1); (3000, ENext true);
    (4000, ENext true) ]%Z.

Definition sample_results : App := fst (run sample_session (mount sample_cfg)).

(** ** Import *)

(** What the validation loop requires of one element, in words: an object
    whose [type] is the string "mcq", whose [choices] is an array, whose
    [answerIndex] is a number, and whose [sources] is falsy (absent, [null],
    [false], [0], the empty string) or an array. *)
Definition shape_ok (q : json) : Prop :=
  ∃ fields, q = JObj fields ∧
    prop_of fields "type" = Some (JStr "mcq") ∧
    (∃ cs, prop_of fields "choices" = Some (JArr cs)) ∧
    (∃ n, prop_of fields "answerIndex" = Some (JNum n)) ∧
    (truthy (prop_of fields "sources") = false ∨
     ∃ l, prop_of fields "sources" = Some (JArr l)).

(** [answerIndex] is an index of [choices]. *)
Definition in_bounds_json (q : json) : Prop :=
  ∃ cs n, get q "choices" = inr (Some (JArr cs)) ∧
          get q "answerIndex" = inr (Some (JNum n)) ∧
          (0 ≤ n < Z.of_nat (length cs))%Z.

Definition in_bounds (q : McqQuestion) : Prop :=
  (0 ≤ answerIndex q < Z.of_nat (length (choices q)))%Z.

Definition json_ok : json :=
  JObj [ ("id", JStr "a1"); ("type", JStr "mcq"); ("chapitre", JStr "Mesure");
         ("niveau", JStr "avancé"); ("question", JStr "?");
         ("choices", JArr [JStr "x"; JStr "y"]); ("answerIndex", JNum 1) ].

Definition json_no_answerIndex : json :=
  JObj [ ("id", JStr "a2"); ("type", JStr "mcq"); ("chapitre", JStr "Mesure");
         ("niveau", JStr "avancé"); ("question", JStr "?");
         ("choices", JArr [JStr "x"; JStr "y"]) ].


Definition json_index_out_of_range : json :=
  JObj [ ("id", JStr "a4"); ("type", JStr "mcq");
         ("choices", JArr [JStr "x"; JStr "y"]); ("answerIndex", JNum 5) ].

(** ** Export *)

(** A field content is escaped by doubling when each of its quote characters
    is one of a pair. *)
Fixpoint quotes_paired (s : string) : bool :=
  match s with
  | EmptyString => true
  | String c r =>
      if decide (c = quote_char) then
        match r with
        | String c' r' => if decide (c' = quote_char) then quotes_paired r' else false
        | EmptyString => false
        end
      else quotes_paired r
  end.

(** The field [f] is the content [s] between two quote characters. *)
Definition quoted (s f : string) : Prop := f = quote_mark +:+ s +:+ quote_mark.

(** A question whose chapter, question text and only choice each hold one
    quote character. *)
Definition q_quote : McqQuestion :=
  {| id := "q1"; type := "mcq";
     chapitre := "a" +:+ quote_mark +:+ "b";
     niveau := "avancé";
     question := "c" +:+ quote_mark +:+ "d";
     choices := [ "e" +:+ quote_mark +:+ "f" ];
     answerIndex := 0;
     explanation := None; sources := None |}.

Definition s_quote : Session :=
  {| view := Results; quiz := [q_quote]; order := [0]; idx := 0;
     answers := {[ "q1" := 0 ]}; startedAt := 1000; timeLeft := 0 |}.

(** ** Score *)



(** [p] is an integer nearest to [100 * ok / total]. *)
Definition nearest_pct (p : Z) (ok total : nat) : Prop :=
  (2 * Z.abs (p * Z.of_nat total - 100 * Z.of_nat ok) ≤ Z.of_nat total)%Z.

Definition near (ok total : nat) : bool :=
  (2 * Z.abs (pct_of ok total * Z.of_nat total - 100 * Z.of_nat ok) <=? Z.of_nat total)%Z.

Fixpoint near_upto (total ok : nat) : bool :=
  near ok total && match ok with 0 => true | S o => near_upto total o end.

Fixpoint near_all (total : nat) : bool :=
  match total with
  | 0 => true
  | S t => near_upto total total && near_all t
  end.


(** Forty questions of one chapter, all answered, the first 23 correctly. *)
Definition forty_questions : list McqQuestion :=
  (λ i, {| id := String (Ascii.ascii_of_nat (48 + i)) EmptyString; type := "mcq";
           chapitre := "Mesure"; niveau := "avancé"; question := "?";
           choices := ["a"; "b"]; answerIndex := 0;
           explanation := None; sources := None |}) <$> seq 0 40.

Definition forty_answers : gmap string nat :=
  list_to_map ((λ i, (String (Ascii.ascii_of_nat (48 + i)) EmptyString,
                      if decide (i < 23) then 0 else 1)) <$> seq 0 40).

Definition s_forty : Session :=
  {| view := Results; quiz := forty_questions; order := seq 0 40; idx := 39;
     answers := forty_answers; startedAt := 1000; timeLeft := 0 |}.

(** ** Timer *)

(** The timer effect has seen the current values of its dependencies. *)
Definition settled (a : App) : Prop := timer_deps a = deps_of (live a).

(** A session started at [t0] with configuration [c] has run out of time at
    [now]: [timerMin * 60] seconds minus the whole seconds elapsed is not
    positive. *)
Definition expired (c : Config) (t0 now : Z) : Prop :=
  (timerMin c * 60 - (now - t0) `div` 1000 ≤ 0)%Z.

(** What happens between the start of a session and the end of its time:
    choices, navigation, and firings of the interval before the time is out. *)
Definition session_event (c : Config) (t0 : Z) (te : Z * Event) : Prop :=
  match snd te with
  | ESelect _ | ENext _ | EPrev | EGoto _ => True
  | ETick _ => ¬ expired c t0 (fst te)
  | EStart _ | EQuit | ENouvelleSession => False
  end.

(** The states of a session whose interval closes over the render [cl] in
    which it started: still in the quiz with that interval running, or in the
    results with no interval. *)
Definition in_session (cl : Render) (a : App) : Prop :=
  cfg (live a) = cfg cl ∧ settled a ∧
  ((view (ses (live a)) = Quiz ∧ interval a = Some cl ∧
    startedAt (ses (live a)) = startedAt (ses cl)) ∨
   (view (ses (live a)) = Results ∧ interval a = None)).

(** The state after "Démarrer" at [t0] and the events [evs]. *)
Definition session_after (a : App) (rnd : nat → Sample) (t0 : Z)
    (evs : list (Z * Event)) : App :=
  fst (run ((t0, EStart rnd) :: evs) a).

(** The sample session before its last "Terminer": one question of two is
    answered when the minute is over. *)
Definition sample_events : list (Z * Event) :=
  [ (2000, ESelect 1); (3000, ENext true); (30000, ETick true) ]%Z.

(** ** Sessions reached from the mounted component *)

(** What holds of the session in every state the events lead to: [order] is
    the identity on the quiz, the index points into the quiz outside the home
    view, the questions of the quiz come from the filtered bank and have
    distinct ids, and every recorded answer belongs to a question of the quiz
    and is the index of one of its choices. *)
Definition wf_session (c : Config) (s : Session) : Prop :=
  order s = seq 0 (length (quiz s)) ∧
  (view s ≠ Home → idx s < length (quiz s)) ∧
  NoDup (id <$> quiz s) ∧
  (∀ q, q ∈ quiz s → q ∈ filtered c) ∧
  (∀ q v, q ∈ quiz s → answers s !! id q = Some v → v < length (choices q)) ∧
  (∀ k, is_Some (answers s !! k) → ∃ q, q ∈ quiz s ∧ id q = k).

(** The draws that make [shuffle] swap position [i] with position [j]. *)
Definition sample_for (i j : nat) : Sample := {| s_num := j; s_gap := i - j |}.

(** A source of random numbers that returns the samples [ss] in turn. *)
Definition rnd_of (ss : list Sample) (k : nat) : Sample :=
  default {| s_num := 0; s_gap := 0 |} (ss !! k).

(** What holds of the component between two events: the timer effect is up to
    date, an interval runs only in the quiz view, and the session is well
    formed for the configuration. *)
Definition wf_app (a : App) : Prop :=
  settled a ∧
  (interval a ≠ None → view (ses (live a)) = Quiz) ∧
  wf_session (cfg (live a)) (ses (live a)).

(** A reader of an escaped field content: a quote character followed by
    another character stands for one quote character. *)
Fixpoint undouble (s : string) : string :=
  match s with
  | EmptyString => EmptyString
  | String c r =>
      if decide (c = quote_char) then
        match r with
        | String _ r' => String c (undouble r')
        | EmptyString => String c EmptyString
        end
      else String c (undouble r)
  end.

(** The number of quote characters of a text. *)
Fixpoint count_quotes (s : string) : nat :=
  match s with
  | EmptyString => 0
  | String c r => if decide (c = quote_char) then S (count_quotes r) else count_quotes r
  end.


(** Two more configurations over the default bank: a chapter that no question
    has, and an unshuffled draw of beginner questions. *)
Definition empty_filter_cfg : Config :=
  {| bank := DEFAULT_BANK; mode := "examen"; randomize := false;
     timerOn := false; timerMin := 20; chapitre_sel := "Punition"; niveau_sel := "";
     count := 10 |}.


(** What holds throughout when the timer is off: no interval, the clock at
    zero. *)
Definition untimed (a : App) : Prop :=
  timerOn (cfg (live a)) = false ∧ settled a ∧ interval a = None ∧
  timeLeft (ses (live a)) = 0%Z.

Definition untimed_cfg : Config :=
  {| bank := DEFAULT_BANK; mode := "examen"; randomize := true;
     timerOn := false; timerMin := 20; chapitre_sel := ""; niveau_sel := "";
     count := 10 |}.

(** An element of the wrong type that also lacks [choices]. *)
Definition json_wrong_type : json :=
  JObj [ ("id", JStr "a5"); ("type", JStr "open"); ("answerIndex", JNum 0) ].

(** * Properties *)

(** ** Building the quiz *)

Section Shuffle.
Context {A : Type}.
Implicit Types (arr : list A) (rnd : nat → Sample).

(** The index drawn at step [i] is one of [0 .. i]. *)
Lemma floor_scale_le r i : floor_scale r (i + 1) ≤ i.
Proof.
  unfold floor_scale.
  enough (Nat.div (s_num r * (i + 1)) (s_num r + s_gap r + 1) < i + 1) by lia.
  apply Nat.Div0.div_lt_upper_bound. nia.
Qed.

Lemma swap_Permutation arr i j : swap arr i j ≡ₚ arr.
Proof.
  unfold swap.
  destruct (arr !! i) as [x|] eqn:Hi; [|done].
  destruct (arr !! j) as [y|] eqn:Hj; [|done].
  by apply Permutation_insert_swap.
Qed.

(** Inside [shuffle] both cells of a swap exist, so it exchanges them. *)
Lemma swap_in_range arr i j :
  j ≤ i → i < length arr →
  ∃ x y, arr !! i = Some x ∧ arr !! j = Some y ∧
         swap arr i j = <[j := x]> (<[i := y]> arr).
Proof.
  intros Hj Hi.
  destruct (lookup_lt_is_Some_2 arr i Hi) as [x Hx].
  destruct (lookup_lt_is_Some_2 arr j ltac:(lia)) as [y Hy].
  exists x, y. unfold swap. by rewrite Hx, Hy.
Qed.

Lemma swap_length arr i j : length (swap arr i j) = length arr.
Proof. by rewrite swap_Permutation. Qed.

(** Every turn of the loop of [shuffle] exchanges two cells of the array. *)
Lemma shuffle_loop_in_range rnd k i arr :
  S i < length arr →
  ∃ x y, arr !! S i = Some x ∧
         arr !! floor_scale (rnd k) (S i + 1) = Some y ∧
         shuffle_loop rnd k (S i) arr
         = shuffle_loop rnd (S k) i
             (<[floor_scale (rnd k) (S i + 1) := x]> (<[S i := y]> arr)) ∧
         i < length (<[floor_scale (rnd k) (S i + 1) := x]> (<[S i := y]> arr)).
Proof.
  intros Hi.
  destruct (swap_in_range arr (S i) (floor_scale (rnd k) (S i + 1)))
    as (x & y & Hx & Hy & Hswap); [apply floor_scale_le|done|].
  exists x, y. split; [done|]. split; [done|]. split.
  - cbn [shuffle_loop]. by rewrite Hswap.
  - rewrite !length_insert. lia.
Qed.

Lemma shuffle_loop_Permutation rnd i : ∀ k arr, shuffle_loop rnd k i arr ≡ₚ arr.
Proof.
  induction i as [|i IH]; intros k arr; simpl; [done|].
  rewrite IH. apply swap_Permutation.
Qed.

Lemma shuffle_Permutation rnd arr : shuffle rnd arr ≡ₚ arr.
Proof. apply shuffle_loop_Permutation. Qed.

Lemma slice0_take arr (e : Z) :
  (0 ≤ e ≤ Z.of_nat (length arr))%Z → slice0 arr e = take (Z.to_nat e) arr.
Proof.
  intros He. unfold slice0.
  destruct (Z.ltb_spec e 0); [lia|]. by rewrite Z.min_l by lia.
Qed.
End Shuffle.

Lemma configured_count_pos c : configured_count c → (1 ≤ c)%Z.
Proof. intros [|n v]; unfold clampCount; lia. Qed.



(** ** Recording answers *)

(** C9: [record] stores the chosen index under the id of the question, and a
    second record for the same id replaces the first: only the latest index
    is kept. *)
Theorem record_overwrites (q1 q2 : McqQuestion) (c1 c2 : nat) (s : Session) :
  id q1 = id q2 →
  answers (record q1 c1 s) !! id q1 = Some c1 ∧
  answers (record q2 c2 (record q1 c1 s)) !! id q1 = Some c2 ∧
  record q2 c2 (record q1 c1 s) = record q2 c2 s.
Proof.
  intros Hid. unfold record, set_answers; cbn. rewrite Hid.
  rewrite insert_insert_eq, !lookup_insert_eq. done.
Qed.

Lemma record_overwrites_witness :
  let q := {| id := "q1"; type := "mcq"; chapitre := "Mesure"; niveau := "avancé";
              question := "?"; choices := ["a"; "b"; "c"]; answerIndex := 2;
              explanation := None; sources := None |} in
  let s := ses (live (mount sample_cfg)) in
  answers (record q 0 s) !! id q = Some 0 ∧
  answers (record q 2 (record q 0 s)) !! id q = Some 2 ∧
  record q 2 (record q 0 s) = record q 2 s.
Proof.
  intros q s. apply (record_overwrites q q 0 2 s). reflexivity.
Defined.

(** C10: [record] changes the entry of [answers] under the id of the question
    and nothing else: the other entries, the quiz, the order, the index, the
    view and the timer cells stay as they were, and so do the configuration
    and the running interval when the choice is made in the quiz view. *)
Theorem record_frame :
  (∀ (q : McqQuestion) (c : nat) (s : Session),
     view (record q c s) = view s ∧
     quiz (record q c s) = quiz s ∧
     order (record q c s) = order s ∧
     idx (record q c s) = idx s ∧
     startedAt (record q c s) = startedAt s ∧
     timeLeft (record q c s) = timeLeft s ∧
     ∀ k, k ≠ id q → answers (record q c s) !! k = answers s !! k) ∧
  (∀ (now : Z) (i : nat) (a : App),
     cfg (live (fst (handle now (ESelect i) a))) = cfg (live a) ∧
     interval (fst (handle now (ESelect i) a)) = interval a ∧
     timer_deps (fst (handle now (ESelect i) a)) = timer_deps a).
Proof.
  split.
  - intros q c s. repeat split; try reflexivity.
    intros k Hk. unfold record; cbn. by rewrite lookup_insert_ne.
  - intros now i a. unfold handle.
    destruct (view (ses (live a))); try done.
    destruct (current (ses (live a))) as [q|]; [|done].
    by destruct (decide (i < length (choices q))).
Qed.

(** ** Leaving the results view *)

(** C2 (the code departs from the claim): the "Nouvelle session" button only
    sets the view to home.  After the sample session the quiz, the order, the
    recorded answers and the timer cells are all still there, whereas
    [restartToHome], which "Quitter" calls, empties them. *)
Theorem nouvelle_session_keeps_session :
  (∀ s, nouvelleSession s = set_view Home s) ∧
  let s := ses (live sample_results) in
  let s' := ses (live (fst (step 5000 ENouvelleSession sample_results))) in
  view s = Results ∧ view s' = Home ∧
  quiz s' = quiz s ∧ length (quiz s') = 2 ∧
  order s' = [0; 1] ∧
  idx s' = 1 ∧
  answers s' = answers s ∧ size (answers s') = 1 ∧
  startedAt s' = 1000%Z ∧ timeLeft s' = 60%Z ∧
  quiz (restartToHome s) = [] ∧ answers (restartToHome s) = ∅.
Proof.
  split; [done|]. cbv zeta.
  repeat match goal with |- _ ∧ _ => split end; vm_compute; reflexivity.
Qed.

(** ** Import *)

Lemma is_mcq_true v : is_mcq v = true ↔ v = Some (JStr "mcq").
Proof.
  split; [|by intros ->].
  destruct v as [[]|]; simpl; try done.
  by intros ->%bool_decide_eq_true.
Qed.

Lemma isArray_true v : isArray v = true ↔ ∃ l, v = Some (JArr l).
Proof.
  split; [|by intros [l ->]].
  destruct v as [[]|]; simpl; try done. eauto.
Qed.

Lemma isNumber_true v : isNumber v = true ↔ ∃ n, v = Some (JNum n).
Proof.
  split; [|by intros [l ->]].
  destruct v as [[]|]; simpl; try done. eauto.
Qed.

Lemma check_question_ok q : check_question q = inr () ↔ shape_ok q.
Proof.
  split.
  - destruct q as [| | | | |fields]; try done. unfold check_question; simpl.
    destruct (is_mcq (prop_of fields "type")) eqn:Ht; [|done]. simpl.
    destruct (isArray (prop_of fields "choices")) eqn:Hc; [|done].
    destruct (isNumber (prop_of fields "answerIndex")) eqn:Hn; [|done]. simpl.
    destruct (truthy (prop_of fields "sources")) eqn:Hs; simpl.
    + destruct (isArray (prop_of fields "sources")) eqn:Ha; [|done].
      intros _. exists fields. repeat split.
      * by apply is_mcq_true.
      * by apply isArray_true.
      * by apply isNumber_true.
      * right. by apply isArray_true.
    + intros _. exists fields. repeat split.
      * by apply is_mcq_true.
      * by apply isArray_true.
      * by apply isNumber_true.
      * by left.
  - intros (fields & -> & Ht & Hc & Hn & Hs). unfold check_question; simpl.
    apply is_mcq_true in Ht. apply isArray_true in Hc. apply isNumber_true in Hn.
    rewrite Ht, Hc, Hn. simpl.
    destruct Hs as [->|Hs%isArray_true]; [done|].
    rewrite Hs. by rewrite andb_false_r.
Qed.

Lemma check_question_cases q : check_question q = inr () ∨ ∃ e, check_question q = inl e.
Proof. destruct (check_question q) as [e|[]]; eauto. Qed.

Lemma check_all_ok data : check_all data = inr () ↔ Forall shape_ok data.
Proof.
  induction data as [|q data IH]; simpl.
  - split; [constructor|done].
  - rewrite Forall_cons, <- IH, <- check_question_ok.
    destruct (check_question q) as [e|[]]; [|tauto].
    split; [done|]. by intros [? _].
Qed.

Lemma check_all_cases data : check_all data = inr () ∨ ∃ e, check_all data = inl e.
Proof. destruct (check_all data) as [e|[]]; eauto. Qed.

Lemma check_question_no_answerIndex fields :
  prop_of fields "answerIndex" = None → ∃ e, check_question (JObj fields) = inl e.
Proof.
  intros Hn. destruct (check_question_cases (JObj fields)) as [Hok|]; [|done].
  apply check_question_ok in Hok as (f & [= <-] & _ & _ & [n Hn'] & _). congruence.
Qed.

(** C6: when some element of the imported array fails the validation (one
    without [answerIndex], for example) the import as a whole is rejected
    with an error and the bank stays as it was. *)
Theorem import_rejects_invalid (bank data : list json) (q : json) :
  q ∈ data →
  check_question q ≠ inr () ∨
    (∃ fields, q = JObj fields ∧ prop_of fields "answerIndex" = None) →
  ∃ e, importBank bank (inr (JArr data)) = (bank, Rejected e).
Proof.
  intros Hq Hbad.
  assert (¬ shape_ok q) as Hq'.
  { rewrite <- check_question_ok. destruct Hbad as [?|(fields & Heq & Hn)]; [done|].
    destruct (check_question_no_answerIndex fields Hn) as [e He].
    rewrite Heq, He. done. }
  unfold importBank. destruct (check_all_cases data) as [Hok|[e He]].
  - apply check_all_ok in Hok. rewrite Forall_forall in Hok.
    destruct Hq'. by apply Hok.
  - rewrite He. by exists e.
Qed.

Lemma import_rejects_invalid_witness :
  ∃ e, importBank [json_ok] (inr (JArr [json_ok; json_no_answerIndex]))
       = ([json_ok], Rejected e).
Proof.
  apply (import_rejects_invalid [json_ok] [json_ok; json_no_answerIndex]
           json_no_answerIndex).
  - apply list_elem_of_In. simpl. auto.
  - right. eexists. split; [reflexivity|]. vm_compute. reflexivity.
Defined.



(** C5 fails as stated: an element whose [answerIndex] is 5 with two choices
    is imported, and the new bank breaks the bound. *)
Lemma import_accepts_index_out_of_range :
  importBank [json_ok] (inr (JArr [json_index_out_of_range]))
  = ([json_index_out_of_range], Imported) ∧
  ¬ Forall in_bounds_json [json_index_out_of_range].
Proof.
  split; [vm_compute; reflexivity|].
  intros [(cs & n & Hc & Hn & Hb) _]%Forall_cons.
  vm_compute in Hc, Hn. simplify_eq. simpl in Hb. lia.
Qed.

(** C5, as the code has it: the questions of [DEFAULT_BANK] have their
    [answerIndex] within [choices]; an accepted import replaces the bank by
    the imported array, of which every element has an array [choices] and a
    numeric [answerIndex] (the index is not compared with the number of
    choices). *)
Theorem import_keeps_shapes_only :
  Forall in_bounds DEFAULT_BANK ∧
  ∀ (bank bank' : list json) (parsed : Thrown + json),
    importBank bank parsed = (bank', Imported) →
    parsed = inr (JArr bank') ∧
    Forall (λ q, ∃ cs n, get q "choices" = inr (Some (JArr cs)) ∧
                         get q "answerIndex" = inr (Some (JNum n))) bank'.
Proof.
  split.
  { repeat constructor; vm_compute; congruence. }
  intros bank bank' parsed. unfold importBank.
  destruct parsed as [e|[| | | |data|]]; try done.
  destruct (check_all_cases data) as [Hok|[e He]]; [|by rewrite He].
  rewrite Hok. intros [= <-]. split; [done|].
  apply check_all_ok in Hok. eapply Forall_impl; [exact Hok|].
  intros q (fields & -> & _ & [cs Hc] & [n Hn] & _). exists cs, n.
  simpl. by rewrite Hc, Hn.
Qed.

(** ** Export of the results *)

Lemma quotes_paired_app s t :
  quotes_paired s = true → quotes_paired t = true → quotes_paired (s +:+ t) = true.
Proof.
  intros Hs Ht. remember (String.length s) as n eqn:Hn.
  revert s Hs Hn. induction (lt_wf n) as [n _ IH]. intros s Hs ->.
  destruct s as [|c r]; [done|]. simpl in *.
  destruct (decide (c = quote_char)).
  - destruct r as [|c' r']; [done|]. simpl in *.
    destruct (decide (c' = quote_char)); [|done].
    eapply IH; [|done|done]. lia.
  - eapply IH; [|done|done]. lia.
Qed.

Lemma replaceAll_quote_paired s : quotes_paired (replaceAll_quote s) = true.
Proof.
  induction s as [|c r IH]; [done|].
  cbn [replaceAll_quote].
  destruct (decide (c = quote_char)) as [->|Hc]; cbn [quotes_paired].
  - destruct (decide (quote_char = quote_char)); [exact IH|done].
  - destruct (decide (c = quote_char)); [done|exact IH].
Qed.

Lemma join_paired sep l :
  quotes_paired sep = true → Forall (λ s, quotes_paired s = true) l →
  quotes_paired (join sep l) = true.
Proof.
  intros Hsep. induction 1 as [|s l Hs Hl IH]; simpl; [done|].
  destruct l as [|s' l']; [done|].
  apply quotes_paired_app; [done|]. by apply quotes_paired_app.
Qed.

(** The fields that the export does escape: question, choices, chosen answer,
    explanation and sources. *)
Lemma csv_fields_escaped answers q fs :
  csv_fields answers q = Some fs →
  ∃ c3 c4 c5 c6 c7 c8,
    fs = [ id q; quote_mark +:+ chapitre q +:+ quote_mark; niveau q;
           c3; c4; c5; c6; c7; c8 ] ∧
    quoted (replaceAll_quote (question q)) c3 ∧
    quoted (join " | " (replaceAll_quote <$> choices q)) c4 ∧
    (∃ s, quoted s c5 ∧ quotes_paired s = true) ∧
    (c6 = "0" ∨ c6 = "1") ∧
    (∃ s, quoted s c7 ∧ quotes_paired s = true) ∧
    (∃ s, quoted s c8 ∧ quotes_paired s = true) ∧
    quotes_paired (join " | " (replaceAll_quote <$> choices q)) = true.
Proof.
  unfold csv_fields.
  destruct (match answers !! id q with
            | Some i => replaceAll_quote <$> choices q !! i
            | None => Some ""
            end) as [ch|] eqn:Hch; [|done].
  intros [= <-]. do 6 eexists. split; [reflexivity|].
  split; [done|]. split; [done|]. split; [|split; [|split; [|split]]].
  - exists ch. split; [done|].
    destruct (answers !! id q); [|by simplify_eq].
    destruct (choices q !! _); simplify_eq/=. apply replaceAll_quote_paired.
  - case_bool_decide; auto.
  - eexists. split; [done|].
    destruct (explanation q); [apply replaceAll_quote_paired|done].
  - eexists. split; [done|]. apply replaceAll_quote_paired.
  - apply join_paired; [done|].
    apply Forall_fmap, Forall_true. intros s. apply replaceAll_quote_paired.
Qed.

(** C3 (the code departs from the claim): the chapter is written between
    quotes but its own quote characters are not doubled, unlike those of the
    question, the choices and the chosen answer of the same row. *)
Theorem export_chapitre_quote_not_doubled :
  exportResultsCSV s_quote =
    Download "resultats_qcm_acca.csv"
      (csv_header +:+ newline +:+
       join ";" [ "q1";
                  quote_mark +:+ "a" +:+ quote_mark +:+ "b" +:+ quote_mark;
                  "avancé";
                  quote_mark +:+ "c" +:+ quote_mark +:+ quote_mark +:+ "d" +:+ quote_mark;
                  quote_mark +:+ "e" +:+ quote_mark +:+ quote_mark +:+ "f" +:+ quote_mark;
                  quote_mark +:+ "e" +:+ quote_mark +:+ quote_mark +:+ "f" +:+ quote_mark;
                  "1";
                  quote_mark +:+ quote_mark;
                  quote_mark +:+ quote_mark ]) ∧
  quotes_paired (chapitre q_quote) = false ∧
  quotes_paired (replaceAll_quote (chapitre q_quote)) = true.
Proof. repeat split; vm_compute; reflexivity. Qed.

(** ** Scoring *)

Lemma near_upto_spec total n ok :
  near_upto total n = true → ok ≤ n → nearest_pct (pct_of ok total) ok total.
Proof.
  induction n as [|n IH]; cbn [near_upto]; intros [Hn Hrest]%andb_true_iff Hle.
  - assert (ok = 0) as -> by lia. by apply Z.leb_le in Hn.
  - destruct (decide (ok = S n)) as [->|].
    + by apply Z.leb_le in Hn.
    + apply IH; [done|lia].
Qed.

Lemma near_all_spec N total ok :
  near_all N = true → 0 < total ≤ N → ok ≤ total →
  nearest_pct (pct_of ok total) ok total.
Proof.
  induction N as [|N IH]; cbn [near_all]; [lia|].
  intros [Hn Hrest]%andb_true_iff Ht Hok.
  destruct (decide (total = S N)) as [->|].
  - by apply (near_upto_spec (S N) (S N)).
  - apply IH; [done|lia|done].
Qed.

(** Every ratio with at most 200 questions, by evaluation on the doubles. *)
Lemma near_all_200 : near_all 200 = true.
Proof. vm_compute. reflexivity. Qed.

Lemma length_filter_snoc {A} (P : A → Prop) `{!∀ x, Decision (P x)} (l : list A) x :
  length (filter P (l ++ [x])) = length (filter P l) + (if decide (P x) then 1 else 0).
Proof.
  rewrite filter_app, length_app, filter_cons, filter_nil.
  by destruct (decide (P x)).
Qed.

Lemma good_count answers q :
  (if decide (good answers q) then 1 else 0) = (if good answers q then 1 else 0).
Proof. by destruct (good answers q); case_decide. Qed.

Lemma score_fold_ok answers qs :
  fst (foldl (score_step answers) (0, ∅) qs) = length (filter (λ q, good answers q) qs).
Proof.
  induction qs as [|q qs IH] using rev_ind; [done|].
  rewrite foldl_snoc, length_filter_snoc, good_count. unfold score_step at 1. cbn [fst].
  rewrite IH. by destruct (good answers q).
Qed.





(** ** The timer *)

Lemma settle_settled now a : settled a → settle now a = a.
Proof.
  intros Ha. unfold settled in Ha.
  assert (timer_effect now a = a) as Hone.
  { unfold timer_effect. by rewrite decide_True. }
  unfold settle. by rewrite !Hone.
Qed.

(** Two runs of the effect are enough. *)
Lemma settle_is_settled now a : settled (settle now a).
Proof.
  unfold settle.
  destruct (decide (deps_of (live a) = timer_deps a)) as [Hd|Hd].
  { assert (timer_effect now a = a) as Hone.
    { unfold timer_effect. by rewrite decide_True. }
    rewrite !Hone. by unfold settled. }
  destruct (decide (view (ses (live a)) ≠ Quiz ∨ timerOn (cfg (live a)) = false))
    as [Hout|Hin].
  { assert (timer_effect now a =
            {| live := live a; interval := None; timer_deps := deps_of (live a) |})
      as ->.
    { unfold timer_effect. rewrite decide_False by done. by rewrite decide_True. }
    unfold timer_effect, settled. cbn [live timer_deps]. by rewrite decide_True. }
  destruct (decide (startedAt (ses (live a)) = 0%Z)) as [H0|H0].
  - assert (timer_effect now a =
            {| live := {| cfg := cfg (live a); ses := set_startedAt now (ses (live a)) |};
               interval := Some (live a); timer_deps := deps_of (live a) |}) as ->.
    { unfold timer_effect. rewrite decide_False by done.
      rewrite decide_False by done. by rewrite decide_True. }
    unfold timer_effect, settled. cbn [live timer_deps interval].
    case_decide as He; [by cbn|].
    rewrite decide_False by done.
    cbn [live timer_deps cfg ses set_startedAt startedAt].
    case_decide as Hn; [|done].
    destruct He. unfold deps_of. cbn. by rewrite H0, Hn.
  - assert (timer_effect now a =
            {| live := live a; interval := Some (live a);
               timer_deps := deps_of (live a) |}) as ->.
    { unfold timer_effect. rewrite decide_False by done.
      rewrite decide_False by done. by rewrite decide_False. }
    unfold timer_effect, settled. cbn [live timer_deps]. by rewrite decide_True.
Qed.

Lemma mount_settled c : settled (mount c).
Proof. reflexivity. Qed.

Lemma time_left_running cl now :
  startedAt (ses cl) ≠ 0%Z →
  time_left cl now
  = Z.max 0 (timerMin (cfg cl) * 60 - (now - startedAt (ses cl)) `div` 1000)%Z.
Proof. intros Hnz. unfold time_left. by rewrite decide_False. Qed.

Section TimedSession.
Variable cl : Render.
Hypothesis cl_view : view (ses cl) = Quiz.
Hypothesis cl_started : startedAt (ses cl) ≠ 0%Z.

(** A handler that leaves [view] and [startedAt] alone does not wake the
    timer effect. *)
Lemma in_session_same_deps now a s' :
  in_session cl a →
  view s' = view (ses (live a)) →
  startedAt s' = startedAt (ses (live a)) →
  in_session cl (settle now (with_ses s' a)).
Proof.
  intros (Hc & Hs & Hcase) Hv Ht.
  assert (settled (with_ses s' a)) as Hs'.
  { unfold settled, with_ses, deps_of in *. cbn. by rewrite Hs, Hv, Ht. }
  rewrite settle_settled by done.
  split; [done|]. split; [done|]. cbn. rewrite Hv, Ht. exact Hcase.
Qed.

(** Moving to the results view wakes the effect, whose cleanup clears the
    interval. *)
Lemma in_session_to_results now a s' :
  in_session cl a →
  view (ses (live a)) = Quiz →
  view s' = Results →
  in_session cl (settle now (with_ses s' a)) ∧
  view (ses (live (settle now (with_ses s' a)))) = Results.
Proof.
  intros (Hc & Hs & Hcase) Hq Hv.
  set (a' := {| live := live (with_ses s' a); interval := None;
                timer_deps := deps_of (live (with_ses s' a)) |}).
  assert (timer_effect now (with_ses s' a) = a') as Hfirst.
  { unfold timer_effect. rewrite decide_False.
    - rewrite decide_True; [done|]. cbn. rewrite Hv. left. congruence.
    - unfold settled, with_ses, deps_of in *. cbn. rewrite Hs, Hv, Hq. congruence. }
  assert (timer_effect now a' = a') as Hsecond.
  { unfold timer_effect. by rewrite decide_True. }
  unfold settle. rewrite Hfirst, Hsecond.
  split; [|exact Hv]. split; [exact Hc|]. split; [reflexivity|].
  right. split; [exact Hv|reflexivity].
Qed.

Lemma in_session_step now e a :
  in_session cl a → session_event (cfg cl) (startedAt (ses cl)) (now, e) →
  in_session cl (fst (step now e a)).
Proof.
  intros Ha He. pose proof Ha as (Hc & Hs & Hcase).
  unfold step.
  destruct Hcase as [(Hq & Hi & Ht)|(Hr & Hi)].
  - (* in the quiz *)
    destruct e as [rnd|i|ok| |n| | |ok]; cbn in He; try done;
      unfold handle; cbv zeta; try rewrite Hq.
    + destruct (current (ses (live a))) as [q|].
      * destruct (decide (i < length (choices q))); cbn [fst].
        -- by apply in_session_same_deps.
        -- by rewrite settle_settled.
      * cbn [fst]. by rewrite settle_settled.
    + unfold next, finish. repeat case_decide; try destruct ok; cbn [fst];
        first [ by apply in_session_same_deps
              | by apply in_session_to_results ].
    + unfold prev. case_decide; cbn [fst]; by apply in_session_same_deps.
    + unfold goto. case_decide; cbn [fst].
      * by apply in_session_same_deps.
      * by rewrite settle_settled.
    + unfold tick. rewrite Hi.
      rewrite time_left_running by done.
      unfold expired in He.
      rewrite decide_False by lia. cbn [fst].
      by apply in_session_same_deps.
  - (* in the results *)
    destruct e as [rnd|i|ok| |n| | |ok]; cbn in He; try done;
      unfold handle; cbv zeta; try rewrite Hr;
      cbn [fst]; try by rewrite settle_settled.
    unfold tick. rewrite Hi. cbn [fst]. by rewrite settle_settled.
Qed.

Lemma in_session_run evs : ∀ a,
  in_session cl a →
  Forall (session_event (cfg cl) (startedAt (ses cl))) evs →
  in_session cl (fst (run evs a)).
Proof.
  induction evs as [|[now e] evs IH]; intros a Ha Hevs; [done|].
  apply Forall_cons in Hevs as [He Hevs]. cbn [run].
  pose proof (in_session_step now e a Ha He) as Ha1.
  destruct (step now e a) as [a1 d1]. cbn [fst] in Ha1.
  specialize (IH a1 Ha1 Hevs).
  by destruct (run evs a1) as [a2 d2].
Qed.

End TimedSession.


(** "Démarrer" outside the quiz view, with the timer on and a question to
    ask, opens the quiz and creates the interval over the render it caused. *)
Lemma start_in_session rnd t0 a :
  view (ses (live a)) ≠ Quiz → settled a →
  timerOn (cfg (live a)) = true → filtered (cfg (live a)) ≠ [] →
  (1 ≤ count (cfg (live a)))%Z → t0 ≠ 0%Z →
  ∃ cl, fst (step t0 (EStart rnd) a) =
          {| live := cl; interval := Some cl; timer_deps := deps_of cl |} ∧
        cfg cl = cfg (live a) ∧ view (ses cl) = Quiz ∧ startedAt (ses cl) = t0 ∧
        answers (ses cl) = ∅ ∧ quiz (ses cl) ≠ [].
Proof.
  intros Hv Hs Hon Hne Hc Ht0.
  set (s0 := fst (start rnd t0 (live a))).
  exists {| cfg := cfg (live a); ses := s0 |}.
  assert (start rnd t0 (live a) = (s0, []) ∧ view s0 = Quiz ∧ startedAt s0 = t0 ∧
          answers s0 = ∅ ∧ quiz s0 ≠ []) as (Hstart & Hv0 & Hst & Ha0 & Hq0).
  { unfold s0, start.
    destruct (decide (length (filtered (cfg (live a))) = 0)) as [H0|H0].
    { by apply nil_length_inv in H0. }
    cbn. repeat split.
    set (l := if randomize (cfg (live a)) then shuffle rnd (filtered (cfg (live a)))
              else filtered (cfg (live a))).
    assert (length l = length (filtered (cfg (live a)))) as Hlen.
    { unfold l. destruct (randomize (cfg (live a))); [|done].
      by rewrite shuffle_Permutation. }
    rewrite slice0_take by lia. intros Hnil%(f_equal length).
    rewrite length_take in Hnil. simpl in Hnil. lia. }
  split; [|done].
  assert (fst (handle t0 (EStart rnd) a) = with_ses s0 a) as Hh.
  { unfold handle. cbv zeta. rewrite Hstart.
    by destruct (view (ses (live a))). }
  unfold step. destruct (handle t0 (EStart rnd) a) as [a' ds]. cbn [fst] in *.
  subst a'. unfold settle.
  assert (timer_effect t0 (with_ses s0 a) =
          {| live := {| cfg := cfg (live a); ses := s0 |};
             interval := Some {| cfg := cfg (live a); ses := s0 |};
             timer_deps := deps_of {| cfg := cfg (live a); ses := s0 |} |}) as ->.
  { unfold timer_effect. rewrite decide_False.
    - rewrite decide_False.
      + cbn. by rewrite decide_False by congruence.
      + cbn. rewrite Hv0, Hon. intros [?|?]; congruence.
    - unfold settled, with_ses, deps_of in *. cbn. rewrite Hs, Hv0. congruence. }
  unfold timer_effect. by rewrite decide_True.
Qed.




(** * Further properties of the code *)

(** ** The filtered set *)

(** X1: a question is in the filtered set exactly when it is in the bank and
    matches the selected chapter and the selected level (an empty selection
    matches all); the filtered set keeps the order of the bank, and is the
    whole bank when nothing is selected. *)
Theorem filtered_exactly_matching (c : Config) :
  (∀ q, q ∈ filtered c ↔
        q ∈ bank c ∧
        (chapitre_sel c = "" ∨ chapitre q = chapitre_sel c) ∧
        (niveau_sel c = "" ∨ niveau q = niveau_sel c)) ∧
  filtered c `sublist_of` bank c ∧
  (chapitre_sel c = "" → niveau_sel c = "" → filtered c = bank c).
Proof.
  unfold filtered. split; [|split].
  - intros q. rewrite list_elem_of_filter. unfold matches. tauto.
  - apply sublist_filter.
  - intros Hc Hn. induction (bank c) as [|q l IH]; [done|].
    rewrite filter_cons_True by (unfold matches; auto). by rewrite IH.
Qed.

(** ** Shuffling *)

(** X2: [shuffle] returns a rearrangement of its argument: the same elements
    with the same multiplicities, hence the same length; nothing is lost or
    duplicated whatever the random numbers are. *)
Theorem shuffle_is_rearrangement {A} (rnd : nat → Sample) (a : list A) :
  shuffle rnd a ≡ₚ a ∧ length (shuffle rnd a) = length a ∧
  ∀ x, x ∈ shuffle rnd a ↔ x ∈ a.
Proof.
  pose proof (shuffle_Permutation rnd a) as Hp.
  split; [done|]. split; [by rewrite Hp|]. intros x. by rewrite Hp.
Qed.

Lemma floor_scale_sample_for i j : j ≤ i → floor_scale (sample_for i j) (i + 1) = j.
Proof.
  intros Hj. unfold floor_scale, sample_for. cbn [s_num s_gap].
  replace (j + (i - j) + 1) with (i + 1) by lia.
  apply Nat.div_mul. lia.
Qed.

(** The loop at index [i] works on the first [i + 1] cells only, and can bring
    them into any order. *)
Lemma shuffle_loop_reaches {A} (i : nat) : ∀ (pre suf target : list A),
  length pre = S i → target ≡ₚ pre →
  ∃ ss, length ss = i ∧
    ∀ rnd k, (∀ m, m < i → rnd (k + m) = rnd_of ss m) →
             shuffle_loop rnd k i (pre ++ suf) = target ++ suf.
Proof.
  induction i as [|i IH]; intros pre suf target Hlen Hperm.
  - exists []. split; [done|]. intros rnd k _. cbn [shuffle_loop].
    destruct pre as [|x [|??]]; try done.
    by apply Permutation_singleton_r in Hperm as ->.
  - (* the last cell of the target decides the swap *)
    destruct (decide (target = [])) as [->|Hne].
    { apply Permutation_nil_l in Hperm. by subst pre. }
    destruct (exists_last Hne) as (target' & y & ->).
    assert (y ∈ pre) as [j Hj]%list_elem_of_lookup.
    { rewrite <- Hperm. set_solver. }
    assert (j ≤ S i) as Hji by (apply lookup_lt_Some in Hj; lia).
    destruct (lookup_lt_is_Some_2 pre (S i) ltac:(lia)) as [x Hx].
    set (pre1 := <[j := x]> (<[S i := y]> pre)).
    assert (pre1 ≡ₚ pre) as Hp1 by by apply Permutation_insert_swap.
    assert (length pre1 = S (S i)) as Hl1 by by rewrite Hp1.
    assert (pre1 !! S i = Some y) as Hlast.
    { unfold pre1. destruct (decide (j = S i)) as [->|Hne'].
      - rewrite list_lookup_insert_eq by (rewrite length_insert; lia). congruence.
      - rewrite list_lookup_insert_ne by done.
        apply list_lookup_insert_eq. lia. }
    assert (pre1 = take (S i) pre1 ++ [y]) as Hsplit.
    { rewrite <- (take_drop (S i) pre1) at 1. f_equal.
      apply (drop_S _ _ _) in Hlast as Hd. rewrite Hd, drop_ge by lia. done. }
    assert (target' ≡ₚ take (S i) pre1) as Hp2.
    { apply (Permutation_app_inv_r [y]). rewrite <- Hsplit, Hp1. done. }
    destruct (IH (take (S i) pre1) (y :: suf) target') as (ss & Hss & Hrun).
    { rewrite length_take. lia. }
    { done. }
    exists (sample_for (S i) j :: ss). split; [simpl; lia|].
    intros rnd k Hrnd. cbn [shuffle_loop].
    assert (rnd k = sample_for (S i) j) as ->.
    { specialize (Hrnd 0 ltac:(lia)). by rewrite Nat.add_0_r in Hrnd. }
    rewrite floor_scale_sample_for by done.
    assert (swap (pre ++ suf) (S i) j = take (S i) pre1 ++ y :: suf) as ->.
    { unfold swap.
      rewrite (lookup_app_l_Some _ _ _ _ Hx), (lookup_app_l_Some _ _ _ _ Hj).
      rewrite insert_app_l by lia.
      rewrite insert_app_l by (rewrite length_insert; lia).
      fold pre1. rewrite Hsplit at 1. by rewrite <- app_assoc. }
    rewrite Hrun; [by rewrite <- app_assoc|].
    intros m Hm. specialize (Hrnd (S m) ltac:(lia)).
    by rewrite <- Nat.add_succ_comm in Hrnd.
Qed.

(** X3: [shuffle] can return every rearrangement of its argument: for each
    one there are random numbers that produce it. *)
Theorem shuffle_reaches_every_rearrangement {A} (a target : list A) :
  target ≡ₚ a → ∃ rnd, shuffle rnd a = target.
Proof.
  intros Hperm. destruct a as [|x a].
  { apply Permutation_nil_r in Hperm as ->. by exists (rnd_of []). }
  destruct (shuffle_loop_reaches (length a) (x :: a) [] target) as (ss & _ & Hrun);
    [done|done|].
  exists (rnd_of ss). unfold shuffle.
  replace (length (x :: a) - 1) with (length a) by (simpl; lia).
  specialize (Hrun (rnd_of ss) 0 (λ m _, eq_refl)).
  by rewrite !app_nil_r in Hrun.
Qed.

Lemma shuffle_reaches_every_rearrangement_witness :
  ∃ rnd, shuffle rnd [1; 2; 3] = [3; 1; 2].
Proof.
  apply (shuffle_reaches_every_rearrangement [1; 2; 3] [3; 1; 2]).
  change ([3] ++ [1; 2] ≡ₚ [1; 2] ++ [3]). apply Permutation_app_comm.
Defined.

(** ** Well-formed sessions *)

Lemma NoDup_fmap_filter {A B} (f : A → B) (P : A → Prop) `{!∀ x, Decision (P x)}
    (l : list A) :
  NoDup (f <$> l) → NoDup (f <$> filter P l).
Proof.
  intros Hnd. eapply sublist_NoDup; [exact Hnd|].
  apply fmap_sublist, sublist_filter.
Qed.

Lemma NoDup_id_inj (l : list McqQuestion) q q' :
  NoDup (id <$> l) → q ∈ l → q' ∈ l → id q = id q' → q = q'.
Proof.
  intros Hnd [i Hi]%list_elem_of_lookup [j Hj]%list_elem_of_lookup Hid.
  assert (i = j) as ->.
  { eapply NoDup_lookup; [exact Hnd| |].
    - by rewrite list_lookup_fmap, Hi.
    - by rewrite list_lookup_fmap, Hj, Hid. }
  congruence.
Qed.

(** The quiz of a successful [start]: a prefix of a rearrangement of the
    filtered set, of [min(count, size)] questions. *)
Lemma start_quiz_prefix rnd now (r : Render) :
  filtered (cfg r) ≠ [] → (1 ≤ count (cfg r))%Z →
  ∃ l, l ≡ₚ filtered (cfg r) ∧
       (randomize (cfg r) = false → l = filtered (cfg r)) ∧
       start rnd now r =
         ({| view := Quiz;
             quiz := take (Z.to_nat (Z.min (count (cfg r)) (Z.of_nat (length l)))) l;
             order := seq 0 (length (take (Z.to_nat (Z.min (count (cfg r))
                                                 (Z.of_nat (length l)))) l));
             idx := 0; answers := ∅; startedAt := now;
             timeLeft := if timerOn (cfg r) then (timerMin (cfg r) * 60)%Z else 0%Z |},
          []).
Proof.
  intros Hne Hc. unfold start.
  destruct (decide (length (filtered (cfg r)) = 0)) as [H0|H0].
  { by apply nil_length_inv in H0. }
  set (l := if randomize (cfg r) then shuffle rnd (filtered (cfg r))
            else filtered (cfg r)).
  exists l. split; [|split].
  - unfold l. destruct (randomize (cfg r)); [apply shuffle_Permutation|done].
  - unfold l. by intros ->.
  - assert (length l = length (filtered (cfg r))) as Hlen.
    { unfold l. destruct (randomize (cfg r)); [|done]. by rewrite shuffle_Permutation. }
    by rewrite slice0_take by lia.
Qed.

Lemma wf_session_fields c s s' :
  view s' = view s → quiz s' = quiz s → order s' = order s → idx s' = idx s →
  answers s' = answers s →
  wf_session c s → wf_session c s'.
Proof.
  unfold wf_session. intros -> -> -> -> ->. done.
Qed.

Lemma wf_set_idx c s n :
  wf_session c s → n < length (quiz s) → wf_session c (set_idx n s).
Proof.
  intros (Ho & Hi & Hnd & Hf & Ha & Hk) Hn. unfold wf_session. cbn.
  split_and!; auto.
Qed.

Lemma wf_set_view c s v :
  wf_session c s → (v ≠ Home → idx s < length (quiz s)) → wf_session c (set_view v s).
Proof.
  intros (Ho & Hi & Hnd & Hf & Ha & Hk) Hn. unfold wf_session. cbn.
  split_and!; auto.
Qed.

Lemma wf_restartToHome c s : wf_session c (restartToHome s).
Proof.
  unfold wf_session, restartToHome. cbn.
  split; [done|]. split; [done|]. split; [constructor|].
  split; [by intros ? ?%elem_of_nil|].
  split; [by intros ?? ?%elem_of_nil|].
  intros k [v Hv]. by rewrite lookup_empty in Hv.
Qed.

Lemma current_elem_of s q : current s = Some q → q ∈ quiz s.
Proof.
  unfold current. destruct (order s !! idx s); [|done].
  intros H. apply list_elem_of_lookup. eauto.
Qed.

Lemma wf_record c s q i :
  wf_session c s → q ∈ quiz s → i < length (choices q) →
  wf_session c (record q i s).
Proof.
  intros (Ho & Hi & Hnd & Hf & Ha & Hk) Hq Hlt. unfold wf_session, record. cbn.
  split; [done|]. split; [done|]. split; [done|]. split; [done|]. split.
  - intros q' v Hq'. destruct (decide (id q = id q')) as [Heq|Hne].
    + rewrite Heq, lookup_insert_eq. intros [= <-].
      by rewrite <- (NoDup_id_inj _ _ _ Hnd Hq Hq' Heq).
    + rewrite lookup_insert_ne by done. by apply Ha.
  - intros k. destruct (decide (id q = k)) as [<-|Hne]; [eauto|].
    rewrite lookup_insert_ne by done. apply Hk.
Qed.

Lemma wf_finish c cl ok s :
  wf_session c s → idx s < length (quiz s) → wf_session c (fst (finish cl ok s)).
Proof.
  intros Hs Hi. unfold finish.
  case_decide; [destruct ok|]; cbn [fst]; try done; by apply wf_set_view.
Qed.

Lemma wf_start rnd now (r : Render) :
  NoDup (id <$> bank (cfg r)) → (1 ≤ count (cfg r))%Z →
  wf_session (cfg r) (ses r) → wf_session (cfg r) (fst (start rnd now r)).
Proof.
  intros Hnd Hc Hs.
  destruct (decide (filtered (cfg r) = [])) as [He|Hne].
  { unfold start. by rewrite He. }
  destruct (start_quiz_prefix rnd now r Hne Hc) as (l & Hl & _ & ->). cbn [fst].
  assert (length l ≠ 0) as Hl0.
  { rewrite Hl. by intros ?%nil_length_inv. }
  unfold wf_session. cbn.
  split; [done|]. split; [|split; [|split; [|split]]].
  - intros _. rewrite length_take. lia.
  - rewrite fmap_take. eapply sublist_NoDup; [|apply sublist_take].
    rewrite Hl. by apply NoDup_fmap_filter.
  - intros q Hq%subseteq_take. by rewrite <- Hl.
  - intros q v _. by rewrite lookup_empty.
  - intros k [v Hv]. by rewrite lookup_empty in Hv.
Qed.

(** The timer effect touches [startedAt] only. *)
Lemma timer_effect_live now a :
  cfg (live (timer_effect now a)) = cfg (live a) ∧
  view (ses (live (timer_effect now a))) = view (ses (live a)) ∧
  quiz (ses (live (timer_effect now a))) = quiz (ses (live a)) ∧
  order (ses (live (timer_effect now a))) = order (ses (live a)) ∧
  idx (ses (live (timer_effect now a))) = idx (ses (live a)) ∧
  answers (ses (live (timer_effect now a))) = answers (ses (live a)) ∧
  timeLeft (ses (live (timer_effect now a))) = timeLeft (ses (live a)).
Proof. unfold timer_effect. repeat case_decide; done. Qed.

Lemma settle_live now a :
  cfg (live (settle now a)) = cfg (live a) ∧
  view (ses (live (settle now a))) = view (ses (live a)) ∧
  quiz (ses (live (settle now a))) = quiz (ses (live a)) ∧
  order (ses (live (settle now a))) = order (ses (live a)) ∧
  idx (ses (live (settle now a))) = idx (ses (live a)) ∧
  answers (ses (live (settle now a))) = answers (ses (live a)) ∧
  timeLeft (ses (live (settle now a))) = timeLeft (ses (live a)).
Proof.
  unfold settle.
  destruct (timer_effect_live now (timer_effect now a)) as (-> & -> & -> & -> & -> & -> & ->).
  apply timer_effect_live.
Qed.

(** An interval exists after the effect only in the quiz view. *)
Lemma timer_effect_interval now a :
  (deps_of (live a) = timer_deps a → interval a ≠ None → view (ses (live a)) = Quiz) →
  interval (timer_effect now a) ≠ None → view (ses (live a)) = Quiz.
Proof.
  unfold timer_effect. intros Hold.
  case_decide as Hd; [by apply Hold|].
  case_decide as Hv; [done|]. intros _.
  destruct (view (ses (live a))); try done; destruct Hv; by left.
Qed.

Lemma settle_interval now a :
  (deps_of (live a) = timer_deps a → interval a ≠ None → view (ses (live a)) = Quiz) →
  interval (settle now a) ≠ None → view (ses (live (settle now a))) = Quiz.
Proof.
  intros Hold Hi. destruct (settle_live now a) as (_ & -> & _).
  unfold settle in Hi.
  apply (timer_effect_interval now (timer_effect now a)) in Hi.
  - by destruct (timer_effect_live now a) as (_ & <- & _).
  - intros _ Hi'. destruct (timer_effect_live now a) as (_ & -> & _).
    by apply (timer_effect_interval now a).
Qed.

(** What a handler leaves alone: the configuration and the dependencies the
    effect saw; the interval is kept or cleared. *)
Lemma handle_frame now e a :
  cfg (live (fst (handle now e a))) = cfg (live a) ∧
  timer_deps (fst (handle now e a)) = timer_deps a ∧
  (interval (fst (handle now e a)) = interval a ∨
   interval (fst (handle now e a)) = None).
Proof.
  unfold handle. cbv zeta.
  destruct e as [rnd|i|ok| |n| | |ok];
    try (destruct (view (ses (live a))); cbn [fst]; auto; fail).
  - destruct (view (ses (live a))); cbn [fst]; auto;
      destruct (start rnd now (live a)); cbn; auto.
  - destruct (view (ses (live a))); cbn [fst]; auto.
    destruct (current (ses (live a))); [|auto]. case_decide; cbn; auto.
  - destruct (view (ses (live a))); cbn [fst]; auto.
    destruct (next _ _ _); cbn; auto.
  - destruct (view (ses (live a))); cbn [fst]; auto. case_decide; cbn; auto.
  - unfold tick. destruct (interval a) as [cl|] eqn:Hi; [|cbn; auto].
    case_decide; [|cbn; auto].
    destruct (finish _ _ _); cbn; auto.
Qed.

Lemma handle_wf_session now e a :
  NoDup (id <$> bank (cfg (live a))) → (1 ≤ count (cfg (live a)))%Z →
  wf_app a →
  wf_session (cfg (live a)) (ses (live (fst (handle now e a)))).
Proof.
  intros Hnd Hc (Hset & Hint & Hs).
  pose proof Hs as (Ho & Hi & _).
  assert (length (order (ses (live a))) = length (quiz (ses (live a)))) as Hlen.
  { by rewrite Ho, length_seq. }
  unfold handle. cbv zeta.
  destruct e as [rnd|i|ok| |n| | |ok].
  - destruct (view (ses (live a))); cbn [fst]; try done;
      pose proof (wf_start rnd now (live a) Hnd Hc Hs);
      destruct (start rnd now (live a)); cbn in *; done.
  - destruct (view (ses (live a))) eqn:Hv; cbn [fst]; try done.
    destruct (current (ses (live a))) as [q|] eqn:Hq; [|done].
    case_decide; [|done]. cbn. apply wf_record; [done| |done].
    by apply current_elem_of.
  - destruct (view (ses (live a))) eqn:Hv; cbn [fst]; try done.
    unfold next. case_decide.
    + cbn. apply wf_set_idx; [done|lia].
    + pose proof (wf_finish (cfg (live a)) (ses (live a)) ok (ses (live a)) Hs) as Hf.
      destruct (finish _ _ _); cbn in *. apply Hf. apply Hi; try rewrite Hv; done.
  - destruct (view (ses (live a))) eqn:Hv; cbn [fst]; try done.
    unfold prev. case_decide; [|done]. apply wf_set_idx; [done|].
    assert (idx (ses (live a)) < length (quiz (ses (live a)))); [|lia].
    apply Hi; try rewrite Hv; done.
  - destruct (view (ses (live a))) eqn:Hv; cbn [fst]; try done.
    case_decide; [|done]. cbn. apply wf_set_idx; [done|lia].
  - destruct (view (ses (live a))); cbn [fst]; try done. apply wf_restartToHome.
  - destruct (view (ses (live a))); cbn [fst]; try done.
    cbn. by apply wf_set_view.
  - unfold tick. destruct (interval a) as [cl|] eqn:Hcl; [|done].
    assert (view (ses (live a)) = Quiz) as Hv by (apply Hint; congruence).
    assert (wf_session (cfg (live a))
              (set_timeLeft (time_left cl now) (ses (live a)))) as Hs1.
    { by eapply wf_session_fields; [..|exact Hs]. }
    case_decide; [|done].
    pose proof (wf_finish (cfg (live a)) (ses cl) ok _ Hs1) as Hf.
    destruct (finish _ _ _); cbn in *. apply Hf. apply Hi; try rewrite Hv; done.
Qed.

Lemma step_wf_app now e a :
  NoDup (id <$> bank (cfg (live a))) → (1 ≤ count (cfg (live a)))%Z →
  wf_app a →
  cfg (live (fst (step now e a))) = cfg (live a) ∧ wf_app (fst (step now e a)).
Proof.
  intros Hnd Hc Ha.
  pose proof (handle_wf_session now e a Hnd Hc Ha) as Hs.
  destruct (handle_frame now e a) as (Hcfg & Hdeps & Hint).
  destruct Ha as (Hset & Hq & _).
  unfold step. destruct (handle now e a) as [a' ds]. cbn [fst] in *.
  destruct (settle_live now a') as (Hc' & Hv' & Hq' & Ho' & Hi' & Ha' & _).
  split; [congruence|]. split; [apply settle_is_settled|]. split.
  - apply settle_interval. intros Hd Hi.
    assert (view (ses (live a')) = view (ses (live a))) as ->.
    { unfold settled in Hset. rewrite Hdeps, Hset in Hd.
      unfold deps_of in Hd. congruence. }
    apply Hq. destruct Hint as [<-|Hn]; congruence.
  - rewrite Hc', Hcfg. eapply wf_session_fields; [..|exact Hs]; done.
Qed.

Lemma mount_wf_app c : wf_app (mount c).
Proof.
  split; [done|]. split; [done|]. apply (wf_restartToHome c (ses (live (mount c)))).
Qed.

Lemma run_wf_app evs : ∀ a,
  NoDup (id <$> bank (cfg (live a))) → (1 ≤ count (cfg (live a)))%Z →
  wf_app a →
  cfg (live (fst (run evs a))) = cfg (live a) ∧ wf_app (fst (run evs a)).
Proof.
  induction evs as [|[now e] evs IH]; intros a Hnd Hc Ha; [done|].
  cbn [run].
  destruct (step_wf_app now e a Hnd Hc Ha) as [Hcfg Ha1].
  destruct (step now e a) as [a1 d1]. cbn [fst] in *.
  destruct (IH a1) as [Hcfg2 Ha2]; [by rewrite Hcfg..|done|].
  destruct (run evs a1) as [a2 d2]. cbn [fst] in *. split; [congruence|done].
Qed.

(** X4: whatever the user and the clock do after mounting (with a bank of
    distinct ids, a configured count and the configuration unchanged), the session stays well formed:
    [order] is the identity on the quiz, the index points at a question
    outside the home view, the quiz has distinct ids and comes from the
    filtered bank, and [answers] holds only ids of the quiz, each with the
    index of an existing choice; an interval runs only in the quiz view. *)
Theorem reachable_session_wf (c : Config) (evs : list (Z * Event)) :
  NoDup (id <$> bank c) → configured_count (count c) →
  cfg (live (fst (run evs (mount c)))) = c ∧
  wf_session c (ses (live (fst (run evs (mount c))))) ∧
  (interval (fst (run evs (mount c))) ≠ None →
   view (ses (live (fst (run evs (mount c))))) = Quiz).
Proof.
  intros Hnd Hc%configured_count_pos.
  destruct (run_wf_app evs (mount c) Hnd Hc (mount_wf_app c)) as [Hcfg (_ & Hi & Hs)].
  cbn in Hcfg. rewrite Hcfg in Hs. done.
Qed.

Lemma reachable_session_wf_witness :
  cfg (live (fst (run sample_session (mount sample_cfg)))) = sample_cfg ∧
  wf_session sample_cfg (ses (live (fst (run sample_session (mount sample_cfg))))) ∧
  (interval (fst (run sample_session (mount sample_cfg))) ≠ None →
   view (ses (live (fst (run sample_session (mount sample_cfg))))) = Quiz).
Proof.
  apply (reachable_session_wf sample_cfg sample_session).
  - apply (bool_decide_unpack _). vm_compute. exact I.
  - apply count_set.
Defined.

Lemma wf_current c s :
  wf_session c s → view s ≠ Home →
  ∃ q, current s = Some q ∧ quiz s !! idx s = Some q.
Proof.
  intros (Ho & Hi & _) Hv. specialize (Hi Hv).
  destruct (lookup_lt_is_Some_2 (quiz s) (idx s) Hi) as [q Hq].
  exists q. split; [|done]. unfold current.
  by rewrite Ho, lookup_seq_lt.
Qed.

(** X5: in every state reached from the mounted component (bank of distinct
    ids, configured count, configuration unchanged) the quiz and results views have a current
    question: [quiz[order[idx]]] is defined and is the question at position
    [idx] of the quiz. *)
Theorem reachable_current_defined (c : Config) (evs : list (Z * Event)) :
  NoDup (id <$> bank c) → configured_count (count c) →
  view (ses (live (fst (run evs (mount c))))) ≠ Home →
  ∃ q, current (ses (live (fst (run evs (mount c))))) = Some q ∧
       quiz (ses (live (fst (run evs (mount c))))) !!
         idx (ses (live (fst (run evs (mount c))))) = Some q ∧
       q ∈ filtered c.
Proof.
  intros Hnd Hc%configured_count_pos Hv.
  destruct (run_wf_app evs (mount c) Hnd Hc (mount_wf_app c)) as [Hcfg (_ & _ & Hs)].
  cbn in Hcfg. rewrite Hcfg in Hs.
  destruct (wf_current c _ Hs Hv) as (q & Hq & Hl).
  exists q. split; [done|]. split; [done|].
  destruct Hs as (_ & _ & _ & Hf & _). apply Hf.
  apply list_elem_of_lookup. eauto.
Qed.

Lemma reachable_current_defined_witness :
  ∃ q, current (ses (live (fst (run sample_session (mount sample_cfg))))) = Some q ∧
       quiz (ses (live (fst (run sample_session (mount sample_cfg))))) !!
         idx (ses (live (fst (run sample_session (mount sample_cfg))))) = Some q ∧
       q ∈ filtered sample_cfg.
Proof.
  apply (reachable_current_defined sample_cfg sample_session).
  - apply (bool_decide_unpack _). vm_compute. exact I.
  - apply count_set.
  - vm_compute. discriminate.
Defined.

(** ** Export of a reached session *)





(** ** The number of unanswered questions *)





(** ** Starting and leaving a session *)

Lemma with_ses_same a : with_ses (ses (live a)) a = a.
Proof. by destruct a as [[c s] i d]. Qed.

Lemma settled_with_ses a s' :
  settled a → view s' = view (ses (live a)) →
  startedAt s' = startedAt (ses (live a)) → settled (with_ses s' a).
Proof.
  unfold settled, with_ses, deps_of. cbn. by intros -> -> ->.
Qed.

(** X8: "Démarrer" when no question matches the filters shows the alert and
    changes nothing: neither the session nor the timer. *)
Theorem start_without_match_changes_nothing now rnd (a : App) :
  settled a → view (ses (live a)) ≠ Quiz → filtered (cfg (live a)) = [] →
  step now (EStart rnd) a = (a, [Alert "Aucune question ne correspond aux filtres."]).
Proof.
  intros Hs Hv He.
  assert (start rnd now (live a)
          = (ses (live a), [Alert "Aucune question ne correspond aux filtres."])) as Hst.
  { unfold start. by rewrite He. }
  unfold step, handle. cbv zeta. rewrite Hst.
  destruct (view (ses (live a))); try done;
    by rewrite with_ses_same, settle_settled.
Qed.

Lemma start_without_match_changes_nothing_witness :
  step 1000 (EStart sample_rnd) (mount empty_filter_cfg)
  = (mount empty_filter_cfg, [Alert "Aucune question ne correspond aux filtres."]).
Proof.
  apply (start_without_match_changes_nothing 1000 sample_rnd (mount empty_filter_cfg)).
  - reflexivity.
  - vm_compute. discriminate.
  - vm_compute. reflexivity.
Defined.



(** X10: "Démarrer" discards whatever session was there: from the home or the
    results view it leads to the state it leads to from a freshly mounted
    component with the same configuration. *)
Theorem start_discards_previous_session now rnd (a : App) :
  settled a → view (ses (live a)) ≠ Quiz →
  filtered (cfg (live a)) ≠ [] →
  step now (EStart rnd) a = step now (EStart rnd) (mount (cfg (live a))).
Proof.
  intros Hs Hv Hne.
  assert (∃ s0, start rnd now (live a) = (s0, []) ∧
                start rnd now (live (mount (cfg (live a)))) = (s0, []) ∧
                view s0 = Quiz) as (s0 & Hst & Hst' & Hv0).
  { unfold start. cbn [cfg live mount].
    destruct (decide (length (filtered (cfg (live a))) = 0)) as [H0|H0].
    { by apply nil_length_inv in H0. }
    eexists. split; [reflexivity|]. split; reflexivity. }
  assert (fst (handle now (EStart rnd) a) = with_ses s0 a ∧
          snd (handle now (EStart rnd) a) = []) as [Hh Hd].
  { unfold handle. cbv zeta. rewrite Hst. by destruct (view (ses (live a))). }
  assert (handle now (EStart rnd) (mount (cfg (live a)))
          = (with_ses s0 (mount (cfg (live a))), [])) as Hh'.
  { unfold handle. cbv zeta. by rewrite Hst'. }
  unfold step. rewrite Hh'.
  destruct (handle now (EStart rnd) a) as [a' ds]. cbn [fst snd] in *. subst a' ds.
  f_equal. unfold settle.
  assert (∀ b, cfg (live b) = cfg (live a) → view (ses (live b)) ≠ Quiz → settled b →
               timer_effect now (with_ses s0 b) =
               timer_effect now
                 {| live := {| cfg := cfg (live a); ses := s0 |};
                    interval := None;
                    timer_deps := (Home, timerOn (cfg (live a)),
                                   timerMin (cfg (live a)), 0%Z) |}) as Hb.
  { intros b Hc Hvb Hsb. unfold timer_effect. cbn [live timer_deps interval].
    rewrite (decide_False (P := deps_of (live (with_ses s0 b)) = _)); last first.
    { unfold settled, with_ses, deps_of in *. cbn. rewrite Hsb, Hv0. congruence. }
    rewrite (decide_False (P := deps_of _ = (Home, _, _, _))); last first.
    { unfold deps_of. cbn. rewrite Hv0. congruence. }
    unfold with_ses. cbn [live ses cfg]. by rewrite Hc. }
  rewrite (Hb a), (Hb (mount (cfg (live a)))); done.
Qed.

Lemma start_discards_previous_session_witness :
  step 9000 (EStart sample_rnd) (fst (step 5000 ENouvelleSession sample_results))
  = step 9000 (EStart sample_rnd)
      (mount (cfg (live (fst (step 5000 ENouvelleSession sample_results))))).
Proof.
  apply (start_discards_previous_session 9000 sample_rnd
           (fst (step 5000 ENouvelleSession sample_results))).
  - vm_compute. reflexivity.
  - vm_compute. discriminate.
  - vm_compute. discriminate.
Defined.

(** X11: "Quitter" in the quiz view brings the component back to the state it
    had when it was mounted: empty session, home view, no interval. *)
Theorem quit_remounts now (a : App) :
  settled a → view (ses (live a)) = Quiz →
  step now EQuit a = (mount (cfg (live a)), []).
Proof.
  intros Hs Hv. unfold step, handle. cbv zeta. rewrite Hv.
  f_equal. unfold settle.
  assert (timer_effect now (with_ses (restartToHome (ses (live a))) a)
          = mount (cfg (live a))) as ->.
  { unfold timer_effect. rewrite decide_False; last first.
    { unfold settled, with_ses, deps_of in *. cbn. rewrite Hs, Hv. congruence. }
    rewrite decide_True by (cbn; left; congruence). done. }
  unfold timer_effect. by rewrite decide_True.
Qed.

Lemma quit_remounts_witness :
  step 2000 EQuit (fst (step 1000 (EStart sample_rnd) (mount sample_cfg)))
  = (mount (cfg (live (fst (step 1000 (EStart sample_rnd) (mount sample_cfg))))), []).
Proof.
  apply (quit_remounts 2000 (fst (step 1000 (EStart sample_rnd) (mount sample_cfg)))).
  - vm_compute. reflexivity.
  - vm_compute. reflexivity.
Defined.

(** X12: "Suivant" before the last question and then "Précédent" give back
    the state exactly, and so do "Précédent" after the first question and
    then "Suivant"; no dialog opens. *)
Theorem next_prev_cancel now now' ok (a : App) :
  settled a → view (ses (live a)) = Quiz →
  (idx (ses (live a)) + 1 < length (order (ses (live a))) →
   step now' EPrev (fst (step now (ENext ok) a)) = (a, []) ∧
   snd (step now (ENext ok) a) = []) ∧
  (0 < idx (ses (live a)) < length (order (ses (live a))) →
   step now' (ENext ok) (fst (step now EPrev a)) = (a, []) ∧
   snd (step now EPrev a) = []).
Proof.
  intros Hs Hv.
  assert (∀ s', view s' = view (ses (live a)) →
                startedAt s' = startedAt (ses (live a)) →
                ∀ t, settle t (with_ses s' a) = with_ses s' a) as Hsettle.
  { intros s' H1 H2 t. apply settle_settled. by apply settled_with_ses. }
  destruct a as [[c s] i d]. cbn in *. split.
  - intros Hi.
    assert (step now (ENext ok) {| live := {| cfg := c; ses := s |};
                                   interval := i; timer_deps := d |}
            = (with_ses (set_idx (idx s + 1) s)
                 {| live := {| cfg := c; ses := s |}; interval := i; timer_deps := d |},
               [])) as Hn.
    { unfold step, handle. cbv zeta. cbn [live ses]. rewrite Hv.
      unfold next. rewrite decide_True by done. by rewrite Hsettle. }
    rewrite Hn. split; [|done]. cbn [fst].
    unfold step, handle. cbv zeta. cbn [live ses with_ses set_idx view idx].
    rewrite Hv. unfold prev. cbn [idx set_idx].
    rewrite decide_True by lia.
    replace (idx s + 1 - 1) with (idx s) by lia.
    f_equal. destruct s. cbn in *. apply settle_settled.
    unfold settled, deps_of in *. cbn in *. done.
  - intros Hi.
    assert (step now EPrev {| live := {| cfg := c; ses := s |};
                              interval := i; timer_deps := d |}
            = (with_ses (set_idx (idx s - 1) s)
                 {| live := {| cfg := c; ses := s |}; interval := i; timer_deps := d |},
               [])) as Hp.
    { unfold step, handle. cbv zeta. cbn [live ses]. rewrite Hv.
      unfold prev. rewrite decide_True by lia. by rewrite Hsettle. }
    rewrite Hp. split; [|done]. cbn [fst].
    unfold step, handle. cbv zeta. cbn [live ses with_ses set_idx view idx].
    rewrite Hv. unfold next. cbn [idx order set_idx].
    rewrite decide_True by lia.
    replace (idx s - 1 + 1) with (idx s) by lia.
    f_equal. destruct s. cbn in *. apply settle_settled.
    unfold settled, deps_of in *. cbn in *. done.
Qed.

Lemma next_prev_cancel_witness :
  (idx (ses (live (fst (step 1000 (EStart sample_rnd) (mount sample_cfg))))) + 1
   < length (order (ses (live (fst (step 1000 (EStart sample_rnd) (mount sample_cfg)))))) →
   step 3000 EPrev
     (fst (step 2000 (ENext true) (fst (step 1000 (EStart sample_rnd) (mount sample_cfg)))))
   = (fst (step 1000 (EStart sample_rnd) (mount sample_cfg)), []) ∧
   snd (step 2000 (ENext true) (fst (step 1000 (EStart sample_rnd) (mount sample_cfg))))
   = []) ∧
  (0 < idx (ses (live (fst (step 1000 (EStart sample_rnd) (mount sample_cfg)))))
   < length (order (ses (live (fst (step 1000 (EStart sample_rnd) (mount sample_cfg)))))) →
   step 3000 (ENext true)
     (fst (step 2000 EPrev (fst (step 1000 (EStart sample_rnd) (mount sample_cfg)))))
   = (fst (step 1000 (EStart sample_rnd) (mount sample_cfg)), []) ∧
   snd (step 2000 EPrev (fst (step 1000 (EStart sample_rnd) (mount sample_cfg)))) = []).
Proof.
  apply (next_prev_cancel 2000 3000 true
           (fst (step 1000 (EStart sample_rnd) (mount sample_cfg)))).
  - vm_compute. reflexivity.
  - vm_compute. reflexivity.
Defined.

(** ** The timer, continued *)

Lemma timer_effect_untimed now a :
  timerOn (cfg (live a)) = false → interval a = None →
  interval (timer_effect now a) = None.
Proof.
  intros Hoff Hi. unfold timer_effect.
  case_decide; [done|]. rewrite decide_True by auto. done.
Qed.

Lemma handle_untimed now e a :
  untimed a → timeLeft (ses (live (fst (handle now e a)))) = 0%Z.
Proof.
  intros (Hoff & _ & Hi & Ht). unfold handle. cbv zeta.
  destruct e as [rnd|i|ok| |n| | |ok];
    try (destruct (view (ses (live a))); cbn [fst]; done).
  - assert (timeLeft (fst (start rnd now (live a))) = 0%Z) as Hst.
    { unfold start. case_decide; [done|]. cbn. by rewrite Hoff. }
    destruct (view (ses (live a))); cbn [fst]; try done;
      destruct (start rnd now (live a)); done.
  - destruct (view (ses (live a))); cbn [fst]; try done.
    destruct (current (ses (live a))); [|done]. by case_decide.
  - destruct (view (ses (live a))); cbn [fst]; try done.
    unfold next, finish. repeat case_decide; try destruct ok; done.
  - destruct (view (ses (live a))); cbn [fst]; try done.
    unfold prev. by case_decide.
  - destruct (view (ses (live a))); cbn [fst]; try done. by case_decide.
  - unfold tick. by rewrite Hi.
Qed.

Lemma step_untimed now e a : untimed a → untimed (fst (step now e a)).
Proof.
  intros Ha. pose proof (handle_untimed now e a Ha) as Ht.
  destruct (handle_frame now e a) as (Hcfg & _ & Hint).
  destruct Ha as (Hoff & Hs & Hi & _).
  unfold step. destruct (handle now e a) as [a' ds]. cbn [fst] in *.
  destruct (settle_live now a') as (Hc' & _ & _ & _ & _ & _ & Ht').
  split; [by rewrite Hc', Hcfg|]. split; [apply settle_is_settled|].
  split; [|by rewrite Ht'].
  unfold settle. apply timer_effect_untimed.
  - destruct (timer_effect_live now a') as (-> & _). by rewrite Hcfg.
  - apply timer_effect_untimed; [by rewrite Hcfg|]. destruct Hint; congruence.
Qed.

Lemma run_untimed evs : ∀ a, untimed a → untimed (fst (run evs a)).
Proof.
  induction evs as [|[now e] evs IH]; intros a Ha; [done|]. cbn [run].
  pose proof (step_untimed now e a Ha) as Ha1.
  destruct (step now e a) as [a1 d1]. cbn [fst] in Ha1.
  specialize (IH a1 Ha1). by destruct (run evs a1).
Qed.

(** X13: with the timer off nothing is ever timed: whatever the events, no
    interval exists, the clock stays at zero, and a firing of the interval,
    should one come, changes nothing and opens no dialog. *)
Theorem untimed_session_has_no_timer (c : Config) (evs : list (Z * Event))
    (now : Z) (ok : bool) :
  timerOn c = false →
  interval (fst (run evs (mount c))) = None ∧
  timeLeft (ses (live (fst (run evs (mount c))))) = 0%Z ∧
  step now (ETick ok) (fst (run evs (mount c))) = (fst (run evs (mount c)), []).
Proof.
  intros Hoff.
  destruct (run_untimed evs (mount c)) as (_ & Hs & Hi & Ht).
  { split; [done|]. split; [done|]. split; done. }
  split; [done|]. split; [done|].
  unfold step, handle, tick. cbv zeta. rewrite Hi.
  by rewrite settle_settled.
Qed.

Lemma untimed_session_has_no_timer_witness :
  interval (fst (run sample_session (mount untimed_cfg))) = None ∧
  timeLeft (ses (live (fst (run sample_session (mount untimed_cfg))))) = 0%Z ∧
  step 70000 (ETick true) (fst (run sample_session (mount untimed_cfg)))
  = (fst (run sample_session (mount untimed_cfg)), []).
Proof.
  apply (untimed_session_has_no_timer untimed_cfg sample_session 70000 true).
  reflexivity.
Defined.



(** A timed session after its start and some events: the interval closes over
    the render of the start. *)
Lemma session_after_in_session (a : App) rnd t0 evs :
  view (ses (live a)) ≠ Quiz → settled a →
  timerOn (cfg (live a)) = true →
  filtered (cfg (live a)) ≠ [] →
  configured_count (count (cfg (live a))) →
  t0 ≠ 0%Z →
  Forall (session_event (cfg (live a)) t0) evs →
  ∃ cl, in_session cl (session_after a rnd t0 evs) ∧
        live (session_after a rnd t0 []) = cl ∧
        cfg cl = cfg (live a) ∧ view (ses cl) = Quiz ∧ startedAt (ses cl) = t0 ∧
        answers (ses cl) = ∅ ∧ quiz (ses cl) ≠ [].
Proof.
  intros Hv Hs Hon Hne Hc%configured_count_pos Ht0 Hevs.
  destruct (start_in_session rnd t0 a Hv Hs Hon Hne Hc Ht0)
    as (cl & Hstep & Hcfg & Hcv & Hct & Hca & Hcq).
  exists cl.
  assert (startedAt (ses cl) ≠ 0%Z) as Hnz by by rewrite Hct.
  assert (in_session cl (fst (step t0 (EStart rnd) a))) as H1.
  { rewrite Hstep. split; [done|]. split; [done|]. left. done. }
  split; [|split; [|done]].
  - unfold session_after. cbn [run].
    destruct (step t0 (EStart rnd) a) as [a1 d1]. cbn [fst] in H1.
    pose proof (in_session_run cl Hnz evs a1 H1) as H2.
    rewrite Hcfg, Hct in H2. specialize (H2 Hevs).
    by destruct (run evs a1).
  - unfold session_after. cbn [run].
    destruct (step t0 (EStart rnd) a) as [a1 d1]. cbn [fst] in *. by subst a1.
Qed.

(** X15: a firing of the interval before the time is out opens no dialog and
    changes nothing but [timeLeft], which becomes [timerMin * 60] minus the
    whole seconds elapsed since the start. *)
Theorem tick_before_expiry_updates_clock
    (a : App) (rnd : nat → Sample) (t0 : Z) (evs : list (Z * Event))
    (now : Z) (ok : bool) :
  view (ses (live a)) ≠ Quiz → settled a →
  timerOn (cfg (live a)) = true →
  filtered (cfg (live a)) ≠ [] →
  configured_count (count (cfg (live a))) →
  t0 ≠ 0%Z →
  Forall (session_event (cfg (live a)) t0) evs →
  view (ses (live (session_after a rnd t0 evs))) = Quiz →
  ¬ expired (cfg (live a)) t0 now →
  step now (ETick ok) (session_after a rnd t0 evs)
  = (with_ses (set_timeLeft (timerMin (cfg (live a)) * 60 - (now - t0) `div` 1000)%Z
                 (ses (live (session_after a rnd t0 evs))))
       (session_after a rnd t0 evs), []).
Proof.
  intros Hv Hs Hon Hne Hc Ht0 Hevs Hq Hexp.
  destruct (session_after_in_session a rnd t0 evs Hv Hs Hon Hne Hc Ht0 Hevs)
    as (cl & Hin & _ & Hcfg & Hcv & Hct & _).
  destruct Hin as (Hc1 & Hs1 & [(_ & Hi & Hst)|(Hr & _)]); [|congruence].
  unfold step, handle, tick. cbv zeta. rewrite Hi.
  rewrite time_left_running by (rewrite Hct; done).
  rewrite Hcfg, Hct. unfold expired in Hexp.
  rewrite decide_False by lia.
  rewrite Z.max_r by lia.
  by rewrite settle_settled by by apply settled_with_ses.
Qed.

Lemma tick_before_expiry_updates_clock_witness :
  step 31500 (ETick true) (session_after (mount sample_cfg) sample_rnd 1000 sample_events)
  = (with_ses (set_timeLeft (timerMin (cfg (live (mount sample_cfg))) * 60
                             - (31500 - 1000) `div` 1000)%Z
                 (ses (live (session_after (mount sample_cfg) sample_rnd 1000
                               sample_events))))
       (session_after (mount sample_cfg) sample_rnd 1000 sample_events), []).
Proof.
  apply (tick_before_expiry_updates_clock (mount sample_cfg) sample_rnd 1000
           sample_events 31500 true).
  - vm_compute. discriminate.
  - reflexivity.
  - reflexivity.
  - vm_compute. discriminate.
  - apply count_set.
  - lia.
  - repeat constructor. unfold session_event, expired. vm_compute.
    intros H. by apply H.
  - vm_compute. reflexivity.
  - unfold expired. vm_compute. intros H. by apply H.
Defined.



(** ** Import, continued *)

Lemma check_all_first_failure good q rest e :
  Forall shape_ok good → check_question q = inl e →
  check_all (good ++ q :: rest) = inl e.
Proof.
  induction 1 as [|g good Hg _ IH]; intros Hq; cbn [check_all app].
  - by rewrite Hq.
  - apply check_question_ok in Hg. rewrite Hg. by apply IH.
Qed.

(** X17: the error an import reports is the one of the first element that
    fails, whatever follows it, and within an element the type is tested
    before [choices] and [answerIndex], and these before [sources]; a [null]
    element is reported as the engine's [TypeError], and a number, string,
    boolean or array as an element of the wrong type. *)
Theorem import_reports_first_failure (bank good rest : list json) (q : json) (e : Thrown) :
  Forall shape_ok good → check_question q = inl e →
  importBank bank (inr (JArr (good ++ q :: rest))) = (bank, Rejected e) ∧
  (q = JNull → e = TypeError) ∧
  (q ≠ JNull → (∀ fields, q ≠ JObj fields) →
     e = Error "Toutes les questions doivent être de type 'mcq'") ∧
  (∀ fields, q = JObj fields → prop_of fields "type" ≠ Some (JStr "mcq") →
     e = Error "Toutes les questions doivent être de type 'mcq'") ∧
  (∀ fields, q = JObj fields → prop_of fields "type" = Some (JStr "mcq") →
     isArray (prop_of fields "choices") = false ∨
     isNumber (prop_of fields "answerIndex") = false →
     e = Error "Chaque question doit avoir 'choices' et 'answerIndex'") ∧
  (∀ fields, q = JObj fields → prop_of fields "type" = Some (JStr "mcq") →
     isArray (prop_of fields "choices") = true →
     isNumber (prop_of fields "answerIndex") = true →
     e = Error "'sources' doit être un tableau de chaînes").
Proof.
  intros Hgood Hq. split; [|split; [|split; [|split; [|split]]]].
  - unfold importBank. by rewrite (check_all_first_failure _ _ _ _ Hgood Hq).
  - intros ->. cbn in Hq. congruence.
  - intros Hnull Hobj.
    destruct q as [| | | | |fields]; cbn in Hq;
      first [congruence | done | by destruct (Hobj fields)].
  - intros fields -> Ht. unfold check_question in Hq. cbn in Hq.
    destruct (is_mcq (prop_of fields "type")) eqn:Hm.
    + by apply is_mcq_true in Hm.
    + cbn in Hq. congruence.
  - intros fields -> Ht%is_mcq_true Hbad. unfold check_question in Hq. cbn in Hq.
    rewrite Ht in Hq. cbn in Hq.
    destruct Hbad as [Hb|Hb]; rewrite Hb in Hq; cbn in Hq;
      rewrite ?orb_true_r in Hq; congruence.
  - intros fields -> Ht%is_mcq_true Hc Hn. unfold check_question in Hq. cbn in Hq.
    rewrite Ht, Hc, Hn in Hq. cbn in Hq.
    destruct (truthy _ && negb _); congruence.
Qed.

Lemma import_reports_first_failure_witness :
  importBank [json_ok]
    (inr (JArr ([json_ok] ++ json_wrong_type :: [json_no_answerIndex])))
  = ([json_ok], Rejected (Error "Toutes les questions doivent être de type 'mcq'")) ∧
  (json_wrong_type = JNull →
   Error "Toutes les questions doivent être de type 'mcq'" = TypeError) ∧
  (json_wrong_type ≠ JNull → (∀ fields, json_wrong_type ≠ JObj fields) →
   Error "Toutes les questions doivent être de type 'mcq'"
   = Error "Toutes les questions doivent être de type 'mcq'") ∧
  (∀ fields, json_wrong_type = JObj fields → prop_of fields "type" ≠ Some (JStr "mcq") →
     Error "Toutes les questions doivent être de type 'mcq'"
     = Error "Toutes les questions doivent être de type 'mcq'") ∧
  (∀ fields, json_wrong_type = JObj fields → prop_of fields "type" = Some (JStr "mcq") →
     isArray (prop_of fields "choices") = false ∨
     isNumber (prop_of fields "answerIndex") = false →
     Error "Toutes les questions doivent être de type 'mcq'"
     = Error "Chaque question doit avoir 'choices' et 'answerIndex'") ∧
  (∀ fields, json_wrong_type = JObj fields → prop_of fields "type" = Some (JStr "mcq") →
     isArray (prop_of fields "choices") = true →
     isNumber (prop_of fields "answerIndex") = true →
     Error "Toutes les questions doivent être de type 'mcq'"
     = Error "'sources' doit être un tableau de chaînes").
Proof.
  apply (import_reports_first_failure [json_ok] [json_ok] [json_no_answerIndex]
           json_wrong_type).
  - repeat constructor. apply check_question_ok. vm_compute. reflexivity.
  - vm_compute. reflexivity.
Defined.

(** X18: an import changes the bank only when it succeeds: a text that does
    not parse, and a parsed value that is not an array (an object, a string,
    a number, a boolean, [null]), leave the bank as it was; the latter is
    reported as "Le JSON doit être un tableau".  An empty array is accepted
    and empties the bank. *)
Theorem import_failures_keep_bank (bank : list json) :
  (∀ e, importBank bank (inl e) = (bank, Rejected e)) ∧
  (∀ j, (∀ data, j ≠ JArr data) →
        importBank bank (inr j) = (bank, Rejected (Error "Le JSON doit être un tableau"))) ∧
  (∀ parsed bank' out, importBank bank parsed = (bank', out) →
     bank' = bank ∨ (out = Imported ∧ parsed = inr (JArr bank'))) ∧
  importBank bank (inr (JArr [])) = ([], Imported).
Proof.
  split; [done|]. split; [|split; [|done]].
  - intros j Hj. destruct j; try done. by destruct (Hj items).
  - intros parsed bank' out. unfold importBank.
    destruct parsed as [e|[| | | |data|]]; try (intros [= <- <-]; by left).
    destruct (check_all data) as [e|[]]; intros [= <- <-]; [by left|by right].
Qed.

(** ** Export, continued *)

(** X19: the escaping of the export loses nothing: halving the doubled quotes
    of an escaped text gives the text back, so two different texts are never
    escaped to the same content; the escaped text is longer by one character
    per quote, and a text without quotes is written as it is. *)
Theorem replaceAll_quote_round_trip (s : string) :
  undouble (replaceAll_quote s) = s ∧
  quotes_paired (replaceAll_quote s) = true ∧
  (∀ t, replaceAll_quote s = replaceAll_quote t → s = t) ∧
  String.length (replaceAll_quote s) = String.length s + count_quotes s ∧
  (count_quotes s = 0 → replaceAll_quote s = s).
Proof.
  assert (∀ u, undouble (replaceAll_quote u) = u) as Hrt.
  { induction u as [|c r IH]; [done|]. cbn [replaceAll_quote].
    destruct (decide (c = quote_char)) as [->|Hc]; cbn [undouble].
    - destruct (decide (quote_char = quote_char)); [|done]. by rewrite IH.
    - rewrite decide_False by done. by rewrite IH. }
  split; [apply Hrt|]. split; [apply replaceAll_quote_paired|]. split; [|split].
  - intros t Heq. by rewrite <- (Hrt s), Heq, Hrt.
  - induction s as [|c r IH]; [done|]. cbn [replaceAll_quote count_quotes].
    destruct (decide (c = quote_char)); cbn [String.length]; rewrite IH; lia.
  - induction s as [|c r IH]; [done|]. cbn [replaceAll_quote count_quotes].
    destruct (decide (c = quote_char)); [done|]. intros H0. by rewrite IH.
Qed.



(** ** Scoring, continued *)









(** X23: for a quiz of up to 200 questions the percentage lies between 0 and
    100, is 100 when every answer is correct and 0 when none is; [ok] never
    exceeds [total]. *)
Theorem pct_range (s : Session) (sc : Score) :
  score s = Some sc → 0 < total sc ≤ 200 →
  (0 ≤ pct sc ≤ 100)%Z ∧
  (ok sc = total sc → pct sc = 100%Z) ∧
  (ok sc = 0 → pct sc = 0%Z) ∧
  ok sc ≤ total sc.
Proof.
  unfold score. case_decide; [done|]. intros [= <-]. cbn [pct total ok].
  rewrite score_fold_ok. intros Ht.
  pose proof (length_filter (λ q, good (answers s) q) (quiz s)) as Hle.
  pose proof (near_all_spec 200 _ _ near_all_200 Ht Hle) as Hn.
  unfold nearest_pct in Hn.
  set (p := pct_of _ _) in *. set (k := length (filter _ _)) in *.
  set (t := length (quiz s)) in *.
  split; [|split; [|split]]; [nia|intros Hk; rewrite Hk in Hn; nia|
                              intros Hk; rewrite Hk in Hn; nia|done].
Qed.

Lemma pct_range_witness :
  ∃ sc, score s_forty = Some sc ∧
        (0 ≤ pct sc ≤ 100)%Z ∧
        (ok sc = total sc → pct sc = 100%Z) ∧
        (ok sc = 0 → pct sc = 0%Z) ∧
        ok sc ≤ total sc.
Proof.
  eexists. split; [reflexivity|]. apply (pct_range s_forty).
  - reflexivity.
  - vm_compute. split; apply le_S_n, le_S_n; repeat constructor.
Defined.

(** ** Finishing by hand *)



(** ** Keyboard shortcuts and inputs *)


